(** * utils/file_utils.py: sandboxed file access and token-budgeted assembly

    A shallow embedding of [src/utils/file_utils.py] and the properties its
    specification states about it.

    Conventions of the embedding.
    - A Python [str] is a [string] holding the UTF-8 bytes of the text.
      Comparing UTF-8 byte strings agrees with comparing code points, so
      [list.sort()] on [str] is a sort for [String.le].
    - A Python [int] is a [Z].
    - A call that can raise returns a [result]; [try]/[except] is [catch].
    - pathlib's lexical operations ([PurePosixPath]) are functions on a
      record of parsed components; everything that touches the disk or the
      process environment is a field of [Env]. *)

From Stdlib Require Import ZArith Ascii String List Lia Bool.
From stdpp Require Import base tactics option list strings gmap sorting.

Local Open Scope Z_scope.

(** ** Exceptions *)

(** The exception classes that travel through this module.  [str(e)] is the
    carried message.  [OSError] stands for the instances of [OSError] that
    are neither [PermissionError] nor [FileNotFoundError]. *)
Inductive exn :=
| ValueError (msg : string)
| PermissionError (msg : string)
| FileNotFoundError (msg : string)
| RuntimeError (msg : string)
| OSError (msg : string).

Definition exn_str (e : exn) : string :=
  match e with
  | ValueError m | PermissionError m | FileNotFoundError m
  | RuntimeError m | OSError m => m
  end.

Inductive result (A : Type) : Type :=
| Ok (a : A)
| Raise (e : exn).
Arguments Ok {A} a.
Arguments Raise {A} e.

#[export] Instance result_ret : MRet result := λ A a, Ok a.
#[export] Instance result_bind : MBind result := λ A B k r,
  match r with
  | Ok a => k a
  | Raise e => Raise e
  end.

(** [try: r except handles as e: h e]; an exception the clause does not
    name keeps propagating. *)
Definition catch {A} (r : result A) (handles : exn → bool) (h : exn → result A)
  : result A :=
  match r with
  | Ok a => Ok a
  | Raise e => if handles e then h e else Raise e
  end.

(** [except ValueError] *)
Definition is_ValueError (e : exn) : bool :=
  match e with ValueError _ => true | _ => false end.

(** [except (ValueError, PermissionError)] *)
Definition is_ValueError_or_PermissionError (e : exn) : bool :=
  match e with ValueError _ | PermissionError _ => true | _ => false end.

(** [except (FileNotFoundError, PermissionError)] *)
Definition is_FileNotFoundError_or_PermissionError (e : exn) : bool :=
  match e with FileNotFoundError _ | PermissionError _ => true | _ => false end.

(** [except Exception] *)
Definition is_Exception (e : exn) : bool := true.

Definition raises {A} (r : result A) : Prop :=
  match r with Ok _ => False | Raise _ => True end.

Definition returns {A} (r : result A) : Prop :=
  match r with Ok _ => True | Raise _ => False end.

(** ** Python string operations *)

Module Str.

(** The number of bytes: [len(s)] for an ASCII text such as [str(n)], and
    the size of a file of content [s]. *)
Definition len (s : string) : Z := Z.of_nat (String.length s).

(** [s.startswith(pre)] *)
Definition startswith (pre s : string) : bool := String.prefix pre s.

(** [s.endswith(suf)] *)
Definition endswith (suf s : string) : bool :=
  String.prefix (String.rev suf) (String.rev s).

Fixpoint join (sep : string) (l : list string) : string :=
  match l with
  | [] => ""
  | [x] => x
  | x :: rest => x +:+ sep +:+ join sep rest
  end.

Fixpoint concat (l : list string) : string :=
  match l with
  | [] => ""
  | x :: rest => x +:+ concat rest
  end.

(** [sub in s] *)
Fixpoint contains (sub s : string) : bool :=
  startswith sub s ||
  match s with
  | EmptyString => false
  | String _ s' => contains sub s'
  end.

(** [s.split(sep)] for a non-empty separator.  [skip] counts the
    characters of a separator just matched that are still to be passed
    over; [acc] is the piece being collected, reversed. *)
Fixpoint split_go (sep : string) (skip : nat) (acc : string) (s : string)
  : list string :=
  match s with
  | EmptyString => [String.rev acc]
  | String c s' =>
      match skip with
      | S k => split_go sep k acc s'
      | O =>
          if startswith sep s
          then String.rev acc :: split_go sep (String.length sep - 1) "" s'
          else split_go sep O (String c acc) s'
      end
  end.
Definition split (sep s : string) : list string := split_go sep O "" s.

(** [s.replace(old, new)] for a non-empty [old]. *)
Fixpoint replace_go (old new : string) (skip : nat) (s : string) : string :=
  match s with
  | EmptyString => ""
  | String c s' =>
      match skip with
      | S k => replace_go old new k s'
      | O =>
          if startswith old s
          then new +:+ replace_go old new (String.length old - 1) s'
          else String c (replace_go old new O s')
      end
  end.
Definition replace (old new s : string) : string := replace_go old new O s.

Definition lower_letter (c : ascii) : ascii :=
  let n := N_of_ascii c in
  if ((65 <=? n) && (n <=? 90))%N then ascii_of_N (n + 32) else c.

(** Lower-casing of the letters A to Z, every other byte kept: what
    [s.lower()] gives for an ASCII text.  The functions below take
    [str.lower()] from [Env]; this one serves the concrete deployments,
    whose paths are ASCII. *)
Fixpoint lower_ascii (s : string) : string :=
  match s with
  | EmptyString => ""
  | String c s' => String (lower_letter c) (lower_ascii s')
  end.

(** [len(s)] in characters: the bytes of the UTF-8 text that do not
    continue a character (those outside 128 to 191). *)
Fixpoint code_points (s : string) : Z :=
  match s with
  | EmptyString => 0
  | String c s' =>
      let n := N_of_ascii c in
      (if ((128 <=? n) && (n <=? 191))%N then 0 else 1) + code_points s'
  end.

(** The ASCII white space of [str.isspace()]: 9 to 13 and 28 to 32. *)
Definition is_space (c : ascii) : bool :=
  let n := N_of_ascii c in
  (((9 <=? n) && (n <=? 13)) || ((28 <=? n) && (n <=? 32)))%N.

Definition byte_is (n : N) (c : ascii) : bool := (N_of_ascii c =? n)%N.

(** Every character is white space for [str.strip()]: ASCII white space,
    or, in their UTF-8 encoding, U+0085 and U+00A0 (C2 85, C2 A0), U+1680
    (E1 9A 80), U+2000 to U+200A, U+2028, U+2029 and U+202F (E2 80 80 to
    E2 80 8A, E2 80 A8, E2 80 A9, E2 80 AF), U+205F (E2 81 9F) and U+3000
    (E3 80 80). *)
Fixpoint all_space (s : string) : bool :=
  match s with
  | EmptyString => true
  | String c s1 =>
      if is_space c then all_space s1
      else
        match s1 with
        | EmptyString => false
        | String d s2 =>
            if byte_is 194 c then
              (byte_is 133 d || byte_is 160 d) && all_space s2
            else
              match s2 with
              | EmptyString => false
              | String e s3 =>
                  let n := N_of_ascii e in
                  if byte_is 225 c then
                    byte_is 154 d && byte_is 128 e && all_space s3
                  else if byte_is 226 c then
                    ((byte_is 128 d &&
                      (((128 <=? n) && (n <=? 138)) || (n =? 168) || (n =? 169)
                       || (n =? 175))%N)
                     || (byte_is 129 d && byte_is 159 e))
                    && all_space s3
                  else if byte_is 227 c then
                    byte_is 128 d && byte_is 128 e && all_space s3
                  else false
              end
        end
  end.

(** Truthiness of [s.strip()]: some character is not white space. *)
Definition strip_nonempty (s : string) : bool := negb (all_space s).

Fixpoint repeat (c : ascii) (n : nat) : string :=
  match n with
  | O => ""
  | S k => String c (repeat c k)
  end.

(** ** Decimal rendering of integers *)

Definition digit (n : Z) : ascii := ascii_of_N (48 + Z.to_N n).

(** Digits of a non-negative [n], most significant first. *)
Fixpoint digits_go (fuel : nat) (n : Z) (acc : string) : string :=
  let acc' := String (digit (n mod 10)) acc in
  match fuel with
  | O => acc'
  | S f => if n <? 10 then acc' else digits_go f (n / 10) acc'
  end.

Definition digits (n : Z) : string :=
  digits_go (Z.to_nat (Z.log2 n)) n "".

(** [str(n)] *)
Definition of_Z (n : Z) : string :=
  if n <? 0 then String "-" (digits (- n)) else digits n.

(** Insert a comma before every group of three digits counted from the
    right; [s] is the digit string and [n] its length. *)
Fixpoint group3 (s : string) (n : nat) : string :=
  match s, n with
  | String c s', S k =>
      String c (if (0 <? k)%nat && (k mod 3 =? 0)%nat
                then String "," (group3 s' k) else group3 s' k)
  | _, _ => ""
  end.

(** [f"{n:,}"] *)
Definition of_Z_comma (n : Z) : string :=
  let d := digits (Z.abs n) in
  let g := group3 d (String.length d) in
  if n <? 0 then String "-" g else g.

(** [f"{n:{width}d}"]: right-aligned in a field of at least [width]. *)
Definition format_d (width : Z) (n : Z) : string :=
  let s := of_Z n in
  repeat " " (Z.to_nat (width - len s)) +:+ s.

End Str.

(** ** pathlib.PurePosixPath *)

(** How a path starts: not at the root, at [/], or at the [//] that POSIX
    keeps apart from [/]. *)
Inductive anchor := Relative | Root | Root2.

#[export] Instance anchor_eq_dec : EqDecision anchor.
Proof. solve_decision. Defined.

Definition anchor_str (a : anchor) : string :=
  match a with
  | Relative => ""
  | Root => "/"
  | Root2 => "//"
  end.

(** A parsed path: its root and the components after the root. *)
Record Path := mkPath { root : anchor; parts : list string }.

#[export] Instance Path_eq_dec : EqDecision Path.
Proof. solve_decision. Defined.

Module PurePath.

Definition parse_root (s : string) : anchor :=
  if Str.startswith "/" s then
    if Str.startswith "//" s && negb (Str.startswith "///" s) then Root2 else Root
  else Relative.

Definition keep_part (x : string) : bool :=
  negb (bool_decide (x = "")) && negb (bool_decide (x = ".")).

Definition parse_parts (s : string) : list string :=
  List.filter keep_part (Str.split "/" s).

(** [Path(s)] *)
Definition of_str (s : string) : Path :=
  {| root := parse_root s; parts := parse_parts s |}.

(** [str(p)] *)
Definition str (p : Path) : string :=
  let s := anchor_str (root p) +:+ Str.join "/" (parts p) in
  if bool_decide (s = "") then "." else s.

(** [p.is_absolute()] *)
Definition is_absolute (p : Path) : bool :=
  negb (bool_decide (root p = Relative)).

(** [p / q] *)
Definition joinpath (p q : Path) : Path :=
  if is_absolute q then q
  else {| root := root p; parts := parts p ++ parts q |}.

(** [xs] begins with [pre]; on success the rest of [xs]. *)
Fixpoint strip_prefix (pre xs : list string) : option (list string) :=
  match pre, xs with
  | [], _ => Some xs
  | a :: pre', b :: xs' =>
      if bool_decide (a = b) then strip_prefix pre' xs' else None
  | _ :: _, [] => None
  end.

(** [p.relative_to(other)]: component-wise, root included. *)
Definition relative_to (p other : Path) : result Path :=
  if bool_decide (root p = root other) then
    match strip_prefix (parts other) (parts p) with
    | Some rest => Ok {| root := Relative; parts := rest |}
    | None =>
        Raise (ValueError (str p +:+ " is not in the subpath of " +:+ str other))
    end
  else Raise (ValueError (str p +:+ " is not in the subpath of " +:+ str other)).

(** [p.name] *)
Definition name (p : Path) : string := List.last (parts p) "".

(** [p.suffix]: from the last dot of the name on, when that dot is
    neither the first nor the last character. *)
Definition suffix (p : Path) : string :=
  let pieces := Str.split "." (name p) in
  let ext := List.last pieces "" in
  if (2 <=? length pieces)%nat
     && negb (bool_decide (ext = ""))
     && (1 <? String.length (name p) - String.length ext)%nat
  then "." +:+ ext else "".

(** [p] is [anc] or lies below it. *)
Definition descendant_of (anc p : Path) : Prop :=
  root p = root anc ∧ ∃ rest, parts p = parts anc ++ rest.

End PurePath.

(** ** The environment of the module *)

(** What [os.walk(top)] enumerates when nothing is pruned: the
    sub-directories and the other entries of a directory, in the order the
    system lists them.  Symbolic links are not followed, so the tree is
    finite; a linked directory appears as a childless node. *)
#[warnings="-register-all"]
Inductive dir_tree :=
| DirNode (dirs : list (string * dir_tree)) (files : list string).

(** The imports of [file_utils.py] that are not part of the module:
    [security_config], [file_types], [token_utils], the process environment
    and the file system behind [pathlib] and [os]. *)
Record Env := mkEnv {
  (* security_config *)
  WORKSPACE_ROOT : option string;
  CONTAINER_WORKSPACE : Path;
  SECURITY_ROOT : Path;
  EXCLUDED_DIRS : gset string;
  MCP_SIGNATURE_FILES : list string;
  (* file_types *)
  CODE_EXTENSIONS : gset string;
  (* token_utils *)
  DEFAULT_CONTEXT_WINDOW : Z;
  estimate_tokens : string → Z;
  (* os.environ.get("USER_HOME"), Path.home() *)
  USER_HOME : option string;
  path_home : result Path;
  (* os.path.realpath(s) *)
  realpath : string → result string;
  (* Path.resolve(), non-strict; it raises RuntimeError on a symbolic-link
     loop and ValueError on a NUL *)
  resolve : Path → result Path;
  (* Path.exists(), Path.is_dir(), Path.is_file(): they answer False when
     the stat fails for a missing entry, a component that is no directory
     or a link loop, and raise every other OSError of the stat, such as
     the one for a name that is too long or a directory that may not be
     searched *)
  path_exists : Path → result bool;
  is_dir : Path → result bool;
  is_file : Path → result bool;
  (* CONTAINER_WORKSPACE.exists(): the stat of the one constant path, the
     mount point, which is taken to answer *)
  container_workspace_exists : bool;
  (* str.lower() *)
  str_lower : string → string;
  (* Path.stat().st_size *)
  st_size : Path → result Z;
  (* open(p, encoding="utf-8", errors="replace").read() *)
  read_text : Path → result string;
  (* os.walk(p) *)
  walk : Path → dir_tree;
}.

Definition LF : string := String "010"%char "".
Definition CR : string := String "013"%char "".

(** ** The functions of file_utils.py *)

Section file_utils.
Context (E : Env).

Import PurePath.

(** *** is_mcp_directory *)

Fixpoint mcp_signature_loop (path : Path) (sigs : list string) (matches : Z)
  : result bool :=
  match sigs with
  | [] => Ok false
  | sig_file :: rest =>
      found ← path_exists E (joinpath path (of_str sig_file));
      if found : bool then
        let matches := matches + 1 in
        if 3 <=? matches then Ok true else mcp_signature_loop path rest matches
      else mcp_signature_loop path rest matches
  end.

Definition is_mcp_directory (path : Path) : result bool :=
  d ← is_dir E path;
  if negb d then Ok false
  else mcp_signature_loop path (MCP_SIGNATURE_FILES E) 0.

(** *** get_user_home_directory *)

Definition truthy (s : option string) : option string :=
  match s with
  | Some w => if bool_decide (w = "") then None else Some w
  | None => None
  end.

Definition get_user_home_directory : result Path :=
  match truthy (USER_HOME E) with
  | Some user_home => resolve E (of_str user_home)
  | None =>
      match container_workspace_exists E, truthy (WORKSPACE_ROOT E) with
      | true, Some w => resolve E (of_str w)
      | _, _ => path_home E
      end
  end.

(** *** is_home_directory_root *)

Definition home_patterns : list string :=
  ["/users/"; "/home/"; "c:\users\"; "c:/users/"].

Fixpoint home_pattern_loop (path_str : string) (patterns : list string)
  : bool :=
  match patterns with
  | [] => false
  | pattern :: rest =>
      if Str.contains pattern path_str then
        let parts := Str.split pattern path_str in
        if (1 <? length parts)%nat then
          let after_pattern := nth 1 parts "" in
          if negb (Str.contains "/" after_pattern)
             && negb (Str.contains "\" after_pattern)
          then true
          else home_pattern_loop path_str rest
        else home_pattern_loop path_str rest
      else home_pattern_loop path_str rest
  end.

Definition is_home_directory_root (path : Path) : result bool :=
  user_home ← get_user_home_directory;
  catch
    (resolved_path ← resolve E path;
     resolved_home ← resolve E user_home;
     if bool_decide (resolved_path = resolved_home) then Ok true
     else Ok (home_pattern_loop (str_lower E (str resolved_path)) home_patterns))
    is_Exception
    (λ _, Ok false).

(** *** should_add_line_numbers *)

Definition should_add_line_numbers (file_path : string)
    (include_line_numbers : option bool) : bool :=
  match include_line_numbers with
  | Some b => b
  | None => false
  end.

(** *** _normalize_line_endings, _add_line_numbers *)

Definition _normalize_line_endings (content : string) : string :=
  Str.replace CR LF (Str.replace (CR +:+ LF) LF content).

Definition number_line (width : Z) (i : nat) (line : string) : string :=
  Str.format_d width (Z.of_nat i + 1) +:+ "│ " +:+ line.

Definition _add_line_numbers (content : string) : string :=
  let normalized_content := _normalize_line_endings content in
  let lines := Str.split LF normalized_content in
  let total_lines := Z.of_nat (length lines) in
  let width := Str.len (Str.of_Z total_lines) in
  let width := Z.max width 4 in
  let numbered_lines := imap (number_line width) lines in
  Str.join LF numbered_lines.

(** *** translate_path_for_environment *)

(** The mount is configured: [WORKSPACE_ROOT] is set and not blank and the
    container workspace exists. *)
Definition mount_configured : option string :=
  match truthy (WORKSPACE_ROOT E) with
  | Some w =>
      if Str.strip_nonempty w && container_workspace_exists E
      then Some w else None
  | None => None
  end.

Definition is_container_path (path_str : string) : bool :=
  Str.startswith (str (CONTAINER_WORKSPACE E) +:+ "/") path_str
  || bool_decide (path_str = str (CONTAINER_WORKSPACE E)).

(** The body of the [try] block. *)
Definition translate_host_path (w path_str : string) : result string :=
  real ← realpath E w;
  let real_workspace_root := of_str real in
  real_host_path ← resolve E (of_str path_str);
  relative_path ← relative_to real_host_path real_workspace_root;
  let container_path := joinpath (CONTAINER_WORKSPACE E) relative_path in
  Ok (str container_path).

Definition translate_path_for_environment (path_str : string) : string :=
  match mount_configured with
  | None => path_str
  | Some w =>
      if is_container_path path_str then path_str
      else
        match translate_host_path w path_str with
        | Ok s => s
        | Raise (ValueError _) =>
            "/inaccessible/outside/mounted/volume" +:+ path_str
        | Raise _ =>
            "/inaccessible/translation/error" +:+ path_str
        end
  end.

(** *** resolve_and_validate_path *)

Definition relative_msg (path_str : string) : string :=
  "Relative paths are not supported. Please provide an absolute path."
  +:+ LF +:+ "Received: " +:+ path_str.

Definition outside_msg (path_str : string) (resolved_path : Path) : string :=
  "Path outside workspace: " +:+ path_str +:+ LF +:+
  "Workspace: " +:+ str (SECURITY_ROOT E) +:+ LF +:+
  "Resolved path: " +:+ str resolved_path.

Definition resolve_and_validate_path (path_str : string) : result Path :=
  let translated_path_str := translate_path_for_environment path_str in
  let user_path := of_str translated_path_str in
  if negb (is_absolute user_path) then
    Raise (ValueError (relative_msg path_str))
  else
    resolved_path ← resolve E user_path;
    _ ← catch (relative_to resolved_path (SECURITY_ROOT E))
          is_ValueError
          (λ _, Raise (PermissionError (outside_msg path_str resolved_path)));
    Ok resolved_path.

(** *** expand_paths *)

(** The two accumulators of the expansion. *)
Record expansion := mkExpansion {
  expanded_files : list string;
  seen : gset string;
}.

(** [if p not in seen: expanded_files.append(p); seen.add(p)] *)
Definition add_file (full_path : string) (st : expansion) : expansion :=
  if bool_decide (full_path ∈ seen st) then st
  else {| expanded_files := expanded_files st ++ [full_path];
          seen := {[full_path]} ∪ seen st |}.

(** [os.path.join(root, d)] *)
Definition os_path_join (a b : string) : string :=
  if Str.startswith "/" b then b
  else if bool_decide (a = "") || Str.endswith "/" a then a +:+ b
  else a +:+ "/" +:+ b.

(** [os.walk] going on, in order, into the sub-directories of a directory
    that were kept; [walk_into d sub] is the walk of the sub-directory
    [d]. *)
Fixpoint descend {A} (walk_into : string → dir_tree → A → result A)
    (dirs : list (string * dir_tree)) (kept : list bool) (a : A) : result A :=
  match dirs, kept with
  | (d, sub) :: dirs', k :: kept' =>
      a ← (if k : bool then walk_into d sub a else Ok a);
      descend walk_into dirs' kept' a
  | _, _ => Ok a
  end.

(** The body of [for d in original_dirs]: [d] is appended to [dirs]. *)
Definition keep_dir (root d : string) : result bool :=
  if Str.startswith "." d then Ok false
  else if bool_decide (d ∈ EXCLUDED_DIRS E) then Ok false
  else
    mcp ← is_mcp_directory (joinpath (of_str root) (of_str d));
    Ok (negb mcp).

(** The pruning of [dirs] in place: for every entry, whether it stays. *)
Fixpoint keep_dirs (root : string) (original_dirs : list string)
  : result (list bool) :=
  match original_dirs with
  | [] => Ok []
  | d :: rest =>
      k ← keep_dir root d;
      ks ← keep_dirs root rest;
      Ok (k :: ks)
  end.

(** The [not extensions or file_path.suffix.lower() in extensions] test. *)
Definition extension_matches (extensions : gset string) (file_path : Path)
  : bool :=
  bool_decide (extensions = ∅)
  || bool_decide (str_lower E (suffix file_path) ∈ extensions).

(** The body of [for file in files]. *)
Definition visit_file (extensions : gset string) (root file : string)
    (st : expansion) : expansion :=
  if Str.startswith "." file then st
  else
    let file_path := joinpath (of_str root) (of_str file) in
    if extension_matches extensions file_path
    then add_file (str file_path) st
    else st.

(** [for root, dirs, files in os.walk(top)] with its body.  For one
    directory the body first prunes [dirs], then goes through [files];
    [os.walk] then descends, in order, into the sub-directories that were
    kept. *)
Fixpoint walk_loop (extensions : gset string) (root : string) (t : dir_tree)
    (st : expansion) : result expansion :=
  match t with
  | DirNode dirs files =>
      kept ← keep_dirs root (map fst dirs);
      let st := fold_left (λ st file, visit_file extensions root file st) files st in
      descend
        (λ d sub st, walk_loop extensions (os_path_join root d) sub st)
        dirs kept st
  end.

(** The three guards on a directory argument; [true] means [continue]. *)
Definition directory_guards (path_obj : Path) : result bool :=
  resolved_workspace ← resolve E (SECURITY_ROOT E);
  resolved_path ← resolve E path_obj;
  if bool_decide (resolved_path = resolved_workspace) then Ok true
  else
    home ← is_home_directory_root path_obj;
    if home : bool then Ok true
    else is_mcp_directory path_obj.

(** The body of [for path in paths]. *)
Definition expand_one (extensions : gset string) (path : string)
    (st : expansion) : result expansion :=
  match resolve_and_validate_path path with
  | Raise e => if is_ValueError_or_PermissionError e then Ok st else Raise e
  | Ok path_obj =>
      found ← path_exists E path_obj;
      if negb found then Ok st
      else
        dir ← is_dir E path_obj;
        skip ← (if dir : bool then directory_guards path_obj else Ok false);
        if skip : bool then Ok st
        else
          file ← is_file E path_obj;
          if file : bool then Ok (add_file (str path_obj) st)
          else
            dir ← is_dir E path_obj;
            if dir : bool then
              walk_loop extensions (str path_obj) (walk E path_obj) st
            else Ok st
  end.

Fixpoint expand_loop (extensions : gset string) (paths : list string)
    (st : expansion) : result expansion :=
  match paths with
  | [] => Ok st
  | path :: rest =>
      st' ← expand_one extensions path st;
      expand_loop extensions rest st'
  end.

Definition expand_paths (paths : list string) (extensions : option (gset string))
  : result (list string) :=
  let extensions := default (CODE_EXTENSIONS E) extensions in
  st ← expand_loop extensions paths {| expanded_files := []; seen := ∅ |};
  Ok (merge_sort String.le (expanded_files st)).

(** *** read_file_content *)

Definition docker_help : string :=
  "File is outside the Docker mounted directory. " +:+
  "When running in Docker, only files within the mounted workspace are accessible. " +:+
  "Current mounted directory: " +:+ default "" (WORKSPACE_ROOT E) +:+ ". " +:+
  "To access files in a different directory, please run Claude from that directory.".

Definition in_docker : bool :=
  match truthy (WORKSPACE_ROOT E) with
  | Some _ => container_workspace_exists E
  | None => false
  end.

Definition error_accessing_block (file_path error_msg : string) : string :=
  LF +:+ "--- ERROR ACCESSING FILE: " +:+ file_path +:+ " ---" +:+ LF +:+
  "Error: " +:+ error_msg +:+ LF +:+ "--- END FILE ---" +:+ LF.

Definition not_found_block (file_path : string) : string :=
  LF +:+ "--- FILE NOT FOUND: " +:+ file_path +:+ " ---" +:+ LF +:+
  "Error: File does not exist" +:+ LF +:+ "--- END FILE ---" +:+ LF.

Definition not_a_file_block (file_path : string) : string :=
  LF +:+ "--- NOT A FILE: " +:+ file_path +:+ " ---" +:+ LF +:+
  "Error: Path is not a file" +:+ LF +:+ "--- END FILE ---" +:+ LF.

Definition too_large_block (file_path : string) (file_size max_size : Z)
  : string :=
  LF +:+ "--- FILE TOO LARGE: " +:+ file_path +:+ " ---" +:+ LF +:+
  "File size: " +:+ Str.of_Z_comma file_size +:+ " bytes (max: " +:+
  Str.of_Z_comma max_size +:+ ")" +:+ LF +:+ "--- END FILE ---" +:+ LF.

Definition error_reading_block (file_path error_msg : string) : string :=
  LF +:+ "--- ERROR READING FILE: " +:+ file_path +:+ " ---" +:+ LF +:+
  "Error: " +:+ error_msg +:+ LF +:+ "--- END FILE ---" +:+ LF.

Definition file_block (file_path file_content : string) : string :=
  LF +:+ "--- BEGIN FILE: " +:+ file_path +:+ " ---" +:+ LF +:+
  file_content +:+ LF +:+ "--- END FILE: " +:+ file_path +:+ " ---" +:+ LF.

Definition with_tokens (content : string) : result (string * Z) :=
  Ok (content, estimate_tokens E content).

(** The second [try] block. *)
Definition read_validated (file_path : string) (path : Path) (max_size : Z)
    (include_line_numbers : option bool) : result (string * Z) :=
  found ← path_exists E path;
  if negb found then with_tokens (not_found_block file_path)
  else
    file ← is_file E path;
    if negb file then with_tokens (not_a_file_block file_path)
    else
      file_size ← st_size E path;
      if max_size <? file_size then
        with_tokens (too_large_block file_path file_size max_size)
      else
        let add_line_numbers :=
          should_add_line_numbers file_path include_line_numbers in
        file_content ← read_text E path;
        let file_content :=
          if add_line_numbers then _add_line_numbers file_content
          else _normalize_line_endings file_content in
        with_tokens (file_block file_path file_content).

Definition read_file_content (file_path : string) (max_size : Z)
    (include_line_numbers : option bool) : result (string * Z) :=
  match resolve_and_validate_path file_path with
  | Raise e =>
      if is_ValueError_or_PermissionError e then
        let error_msg := exn_str e in
        let error_msg := if in_docker then docker_help else error_msg in
        with_tokens (error_accessing_block file_path error_msg)
      else Raise e
  | Ok path =>
      catch (read_validated file_path path max_size include_line_numbers)
        is_Exception
        (λ e, with_tokens (error_reading_block file_path (exn_str e)))
  end.

(** *** read_files *)

(** The local variables of [read_files].  [files_read] is not a variable
    of the source: it logs, in order, the paths [read_file_content] was
    called on, so that "no read is attempted" can be stated. *)
Record assembly := mkAssembly {
  content_parts : list string;
  total_tokens : Z;
  available_tokens : Z;
  files_skipped : list string;
  files_read : list string;
}.

Definition direct_code_block (code : string) : string :=
  LF +:+ "--- BEGIN DIRECT CODE ---" +:+ LF +:+ code +:+ LF +:+
  "--- END DIRECT CODE ---" +:+ LF.

(** Priority 1: the inline code. *)
Definition add_direct_code (code : option string) (st : assembly) : assembly :=
  match truthy code with
  | None => st
  | Some code =>
      let formatted_code := direct_code_block code in
      let code_tokens := estimate_tokens E formatted_code in
      if code_tokens <=? available_tokens st then
        {| content_parts := content_parts st ++ [formatted_code];
           total_tokens := total_tokens st + code_tokens;
           available_tokens := available_tokens st - code_tokens;
           files_skipped := files_skipped st;
           files_read := files_read st |}
      else st
  end.

Definition no_files_found_block (file_paths : list string) : string :=
  LF +:+ "--- NO FILES FOUND ---" +:+ LF +:+
  "Provided paths: " +:+ Str.join ", " file_paths +:+ LF +:+
  "--- END ---" +:+ LF.

(** [for i, file_path in enumerate(all_files)] *)
Fixpoint read_loop (include_line_numbers : bool) (all_files : list string)
    (st : assembly) : result assembly :=
  match all_files with
  | [] => Ok st
  | file_path :: rest =>
      if available_tokens st <=? total_tokens st then
        (* budget exhausted: files_skipped.extend(all_files[i:]); break *)
        Ok {| content_parts := content_parts st;
              total_tokens := total_tokens st;
              available_tokens := available_tokens st;
              files_skipped := files_skipped st ++ all_files;
              files_read := files_read st |}
      else
        r ← read_file_content file_path 1000000 (Some include_line_numbers);
        let file_content := r.1 in
        let file_tokens := r.2 in
        if total_tokens st + file_tokens <=? available_tokens st then
          read_loop include_line_numbers rest
            {| content_parts := content_parts st ++ [file_content];
               total_tokens := total_tokens st + file_tokens;
               available_tokens := available_tokens st;
               files_skipped := files_skipped st;
               files_read := files_read st ++ [file_path] |}
        else
          read_loop include_line_numbers rest
            {| content_parts := content_parts st;
               total_tokens := total_tokens st;
               available_tokens := available_tokens st;
               files_skipped := files_skipped st ++ [file_path];
               files_read := files_read st ++ [file_path] |}
  end.

(** Priority 2: the file paths. *)
Definition add_files (file_paths : list string) (include_line_numbers : bool)
    (st : assembly) : result assembly :=
  match file_paths with
  | [] => Ok st
  | _ :: _ =>
      all_files ← expand_paths file_paths None;
      match all_files with
      | [] =>
          Ok {| content_parts :=
                  content_parts st ++ [no_files_found_block file_paths];
                total_tokens := total_tokens st;
                available_tokens := available_tokens st;
                files_skipped := files_skipped st;
                files_read := files_read st |}
      | _ :: _ => read_loop include_line_numbers all_files st
      end
  end.

Definition skip_note (files_skipped : list string) : string :=
  LF +:+ LF +:+ "--- SKIPPED FILES (TOKEN LIMIT) ---" +:+ LF +:+
  "Total skipped: " +:+ Str.of_Z (Z.of_nat (length files_skipped)) +:+ LF +:+
  Str.concat (map (λ file_path, "  - " +:+ file_path +:+ LF)
                (take 10 files_skipped)) +:+
  (if (10 <? length files_skipped)%nat
   then "  ... and " +:+ Str.of_Z (Z.of_nat (length files_skipped) - 10)
        +:+ " more" +:+ LF
   else "") +:+
  "--- END SKIPPED FILES ---" +:+ LF.

Definition add_skip_note (st : assembly) : assembly :=
  match files_skipped st with
  | [] => st
  | _ :: _ =>
      {| content_parts := content_parts st ++ [skip_note (files_skipped st)];
         total_tokens := total_tokens st;
         available_tokens := available_tokens st;
         files_skipped := files_skipped st;
         files_read := files_read st |}
  end.

(** [read_files] up to the final join: the values of its local variables
    when it returns. *)
Definition read_files_state (file_paths : list string) (code : option string)
    (max_tokens : option Z) (reserve_tokens : Z) (include_line_numbers : bool)
  : result assembly :=
  let max_tokens := default (DEFAULT_CONTEXT_WINDOW E) max_tokens in
  let st := {| content_parts := []; total_tokens := 0;
               available_tokens := max_tokens - reserve_tokens;
               files_skipped := []; files_read := [] |} in
  let st := add_direct_code code st in
  st ← add_files file_paths include_line_numbers st;
  Ok (add_skip_note st).

Definition read_files (file_paths : list string) (code : option string)
    (max_tokens : option Z) (reserve_tokens : Z) (include_line_numbers : bool)
  : result string :=
  st ← read_files_state file_paths code max_tokens reserve_tokens
         include_line_numbers;
  Ok (Str.join (LF +:+ LF) (content_parts st)).

End file_utils.

(** ** The remaining functions of file_utils.py *)

Section file_utils_rest.
Context (E : Env).

(** *** translate_file_paths *)

(** [None] and the empty list are falsy and returned as they are. *)
Definition translate_file_paths (file_paths : option (list string))
  : option (list string) :=
  match file_paths with
  | None => None
  | Some [] => Some []
  | Some (p :: ps) => Some (map (translate_path_for_environment E) (p :: ps))
  end.

End file_utils_rest.

(** *** detect_file_type *)

(** The extension tables of [file_types]. *)
Record FileTypes := mkFileTypes {
  TEXT_EXTENSIONS : gset string;
  IMAGE_EXTENSIONS : gset string;
  BINARY_EXTENSIONS : gset string;
}.

Section detect.
Context (T : FileTypes).
(** [str.lower()] *)
Context (lower : string → string).
(** [open(path, "rb")] followed by [f.read(n)]: the first bytes of the
    file, or the exception that [open] or [read] raised, which can be a
    [FileNotFoundError], a [PermissionError], another [OSError] (for a
    directory, say) or the [ValueError] for a NUL in the path. *)
Context (read_head : Path → Z → result string).
(** Whether [chunk.decode("utf-8")] returns; it raises [UnicodeDecodeError]
    otherwise. *)
Context (decodes_utf8 : string → bool).

Definition detect_file_type (file_path : string) : result string :=
  let path := PurePath.of_str file_path in
  let extension := lower (PurePath.suffix path) in
  if bool_decide (extension ∈ TEXT_EXTENSIONS T) then Ok "text"
  else if bool_decide (extension ∈ IMAGE_EXTENSIONS T) then Ok "image"
  else if bool_decide (extension ∈ BINARY_EXTENSIONS T) then Ok "binary"
  else
    catch
      (chunk ← read_head path 1024;
       (* except UnicodeDecodeError: return "binary" *)
       if decodes_utf8 chunk then Ok "text" else Ok "binary")
      is_FileNotFoundError_or_PermissionError
      (λ _, Ok "unknown").

End detect.

(** ** A file system to run the functions on *)

(** A POSIX directory tree with symbolic links, and the [os]/[pathlib]
    calls of [Env] computed on it. *)
Module PosixFS.

#[warnings="-register-all"]
Inductive node :=
| File (readable : bool) (content : string)
| Symlink (target : string)
| Dir (entries : list (string * node)).

Fixpoint child (entries : list (string * node)) (name : string) : option node :=
  match entries with
  | [] => None
  | (n, x) :: rest => if bool_decide (n = name) then Some x else child rest name
  end.

(** The node at a path of components, no link followed. *)
Fixpoint node_at (n : node) (path : list string) : option node :=
  match path with
  | [] => Some n
  | name :: rest =>
      match n with
      | Dir entries =>
          match child entries name with
          | Some x => node_at x rest
          | None => None
          end
      | _ => None
      end
  end.

(** The kernel's bound on the links followed in one resolution, and on
    the length of a name. *)
Definition MAXSYMLINKS : nat := 40.
Definition NAME_MAX : nat := 255.

Fixpoint has_nul (s : string) : bool :=
  match s with
  | EmptyString => false
  | String c s' => bool_decide (c = "000"%char) || has_nul s'
  end.

(** The message of an [OSError]: the error and the path of the call. *)
Definition os_error (text : string) (p : Path) : string :=
  text +:+ ": '" +:+ PurePath.str p +:+ "'".

(** [os.stat(p)] on components without links: the node they lead to,
    [None] for a missing entry or a component that is no directory, and
    [ENAMETOOLONG] for a name longer than [NAME_MAX] that is looked up in a
    directory. *)
Fixpoint stat_at (p : Path) (n : node) (path : list string)
  : result (option node) :=
  match path with
  | [] => Ok (Some n)
  | name :: rest =>
      match n with
      | Dir entries =>
          if (NAME_MAX <? String.length name)%nat
          then Raise (OSError (os_error "[Errno 36] File name too long" p))
          else
            match child entries name with
            | Some x => stat_at p x rest
            | None => Ok None
            end
      | _ => Ok None
      end
  end.

(** [Path.resolve()]: [resolved] holds the components already canonical,
    [rest] those still to be walked.  A component that does not exist is
    kept as it is (non-strict mode).  A resolution that would follow more
    than [links] links is taken for a symlink loop, which [Path.resolve()]
    reports as [RuntimeError]. *)
Fixpoint resolve_from (fs : node) (links : nat)
  : list string → list string → result (list string) :=
  fix go (resolved rest : list string) : result (list string) :=
    match rest with
    | [] => Ok resolved
    | name :: rest' =>
        if bool_decide (name = "..") then go (removelast resolved) rest'
        else
          match node_at fs (resolved ++ [name]) with
          | Some (Symlink target) =>
              match links with
              | O =>
                  Raise (RuntimeError
                           ("Symlink loop from '/" +:+
                            Str.join "/" (resolved ++ name :: rest') +:+ "'"))
              | S links' =>
                  let t := PurePath.of_str target in
                  resolve_from fs links'
                    (if PurePath.is_absolute t then [] else resolved)
                    (parts t ++ rest')
              end
          | _ => go (resolved ++ [name]) rest'
          end
    end.

Section calls.
(** The tree below [/] and the working directory of the process. *)
Context (fs : node) (cwd : list string).

(** [Path.resolve()]: the result starts at [/], also for a path that
    starts at [//]; a NUL in a component is refused with [ValueError]. *)
Definition fs_resolve (p : Path) : result Path :=
  if existsb has_nul (parts p) then Raise (ValueError "embedded null byte")
  else
    r ← resolve_from fs MAXSYMLINKS
           (if PurePath.is_absolute p then [] else cwd) (parts p);
    Ok {| root := Root; parts := r |}.

(** [os.path.realpath] leaves a looping path unresolved. *)
Definition fs_realpath (s : string) : result string :=
  match fs_resolve (PurePath.of_str s) with
  | Ok p => Ok (PurePath.str p)
  | Raise (ValueError msg) => Raise (ValueError msg)
  | Raise _ => Ok s
  end.

(** The stat behind [Path.exists()], [Path.is_dir()] and [Path.is_file()]:
    the node a path leads to, links followed; [None] where pathlib answers
    [False]. *)
Definition fs_stat (p : Path) : result (option node) :=
  match fs_resolve p with
  | Ok r => stat_at p fs (parts r)
  | Raise _ => Ok None
  end.

Definition fs_exists (p : Path) : result bool :=
  n ← fs_stat p;
  Ok (match n with Some _ => true | None => false end).

Definition fs_is_dir (p : Path) : result bool :=
  n ← fs_stat p;
  Ok (match n with Some (Dir _) => true | _ => false end).

Definition fs_is_file (p : Path) : result bool :=
  n ← fs_stat p;
  Ok (match n with Some (File _ _) => true | _ => false end).

Definition fs_st_size (p : Path) : result Z :=
  n ← fs_stat p;
  match n with
  | Some (File _ content) => Ok (Str.len content)
  | Some _ => Ok 4096
  | None =>
      Raise (FileNotFoundError (os_error "[Errno 2] No such file or directory" p))
  end.

Definition fs_read_text (p : Path) : result string :=
  n ← fs_stat p;
  match n with
  | Some (File true content) => Ok content
  | Some (File false _) =>
      Raise (PermissionError (os_error "[Errno 13] Permission denied" p))
  | Some _ => Raise (OSError (os_error "[Errno 21] Is a directory" p))
  | None =>
      Raise (FileNotFoundError (os_error "[Errno 2] No such file or directory" p))
  end.

(** [os.walk] of the directory [n] found at [here]: an entry is listed
    under [dirs] when it is a directory or a link to one, and only real
    directories are descended into. *)
Fixpoint tree_of (here : list string) (n : node) : dir_tree :=
  match n with
  | Dir entries =>
      let fix go (es : list (string * node))
        : list (string * dir_tree) * list string :=
        match es with
        | [] => ([], [])
        | (name, x) :: rest =>
            let r := go rest in
            match x with
            | Dir _ => ((name, tree_of (here ++ [name]) x) :: r.1, r.2)
            | Symlink _ =>
                match fs_is_dir {| root := Root; parts := here ++ [name] |} with
                | Ok true => ((name, DirNode [] []) :: r.1, r.2)
                | _ => (r.1, name :: r.2)
                end
            | File _ _ => (r.1, name :: r.2)
            end
        end in
      let r := go entries in
      DirNode r.1 r.2
  | _ => DirNode [] []
  end.

Definition fs_walk (p : Path) : dir_tree :=
  match fs_resolve p with
  | Ok r =>
      match fs_stat p with
      | Ok (Some n) => tree_of (parts r) n
      | _ => DirNode [] []
      end
  | Raise _ => DirNode [] []
  end.

End calls.

End PosixFS.

(** ** Concrete deployments *)

Module Demo.
Import PosixFS.

Definition py (content : string) : node := File true content.

(** The disk: a project under [/proj], a host checkout mounted at
    [/workspace], and files outside both. *)
Definition disk : node :=
  Dir [
    ("proj", Dir [
       ("a.py", py ("import os" +:+ LF +:+ "x = 1" +:+ LF +:+ "print(x)"));
       ("b.py", py (Str.repeat "b" 400));
       ("c.py", py "c = 3");
       (".env.py", py "SECRET = 1");
       ("notes.xyz", py "plain notes");
       ("locked.py", File false "unreadable");
       ("loop", Symlink "loop");
       ("escape", Symlink "/etc");
       ("src", Dir [
          ("m.py", py "m = 0");
          ("README", py "no extension");
          (".git", Dir [("config.py", py "hidden")]);
          ("node_modules", Dir [("dep.py", py "vendored")]);
          ("pkg", Dir [("n.py", py "n = 0")])
       ])
    ]);
    ("workspace", Dir [("src", Dir [("file.py", py "pass")])]);
    ("etc", Dir [("passwd", py "root:x:0:0")]);
    ("home", Dir [("john", Dir [])])
  ].

(** [estimate_tokens]: [len(text) // 4], four characters to a token. *)
Definition chars_div_4 (text : string) : Z := Str.code_points text / 4.

(** The module on the disk [fs], run from the working directory [cwd]. *)
Definition env_at (fs : node) (cwd : list string)
    (workspace_root : option string) (security_root : string) : Env :=
  {| WORKSPACE_ROOT := workspace_root;
     CONTAINER_WORKSPACE := PurePath.of_str "/workspace";
     SECURITY_ROOT := PurePath.of_str security_root;
     EXCLUDED_DIRS := {["node_modules"; "__pycache__"; "venv"]};
     MCP_SIGNATURE_FILES := ["zen_server.py"; "server.py"; "tools/__init__.py";
                             "utils/__init__.py"; "prompts/tool_prompts.py"];
     CODE_EXTENSIONS := {[".py"; ".js"; ".ts"]};
     DEFAULT_CONTEXT_WINDOW := 200000;
     estimate_tokens := chars_div_4;
     USER_HOME := None;
     path_home := Ok (PurePath.of_str "/home/john");
     realpath := fs_realpath fs cwd;
     resolve := fs_resolve fs cwd;
     path_exists := fs_exists fs cwd;
     is_dir := fs_is_dir fs cwd;
     is_file := fs_is_file fs cwd;
     container_workspace_exists :=
       match fs_exists fs cwd (PurePath.of_str "/workspace") with
       | Ok found => found
       | Raise _ => false
       end;
     str_lower := Str.lower_ascii;
     st_size := fs_st_size fs cwd;
     read_text := fs_read_text fs cwd;
     walk := fs_walk fs cwd |}.

(** The same, run from [/]. *)
Definition env_on (fs : node) (workspace_root : option string)
    (security_root : string) : Env :=
  env_at fs [] workspace_root security_root.

(** Run directly on the host, sandboxed to [/proj]. *)
Definition direct : Env := env_on disk None "/proj".

(** Run in the container: the host checkout [/Users/john/project] is
    mounted at [/workspace], which is also the sandbox root. *)
Definition docker : Env := env_on disk (Some "/Users/john/project") "/workspace".

(** The same container, the server started in [/srv/a/b/c/d/e]. *)
Definition docker_deep : Env :=
  env_at disk ["srv"; "a"; "b"; "c"; "d"; "e"]
    (Some "/Users/john/project") "/workspace".

End Demo.

(** ** Notions used to state the properties *)

Section notions.
Context (E : Env).
Import PurePath.

(** The estimated tokens of a list of blocks. *)
Definition sum_tokens (blocks : list string) : Z :=
  foldr (λ block acc, estimate_tokens E block + acc) 0 blocks.

(** The three moves of the file loop, in the words of the
    specification. *)
Definition accept_file (file_path file_content : string) (file_tokens : Z)
    (st : assembly) : assembly :=
  {| content_parts := content_parts st ++ [file_content];
     total_tokens := total_tokens st + file_tokens;
     available_tokens := available_tokens st;
     files_skipped := files_skipped st;
     files_read := files_read st ++ [file_path] |}.

Definition skip_file (file_path : string) (st : assembly) : assembly :=
  {| content_parts := content_parts st;
     total_tokens := total_tokens st;
     available_tokens := available_tokens st;
     files_skipped := files_skipped st ++ [file_path];
     files_read := files_read st ++ [file_path] |}.

Definition skip_remaining (remaining : list string) (st : assembly) : assembly :=
  {| content_parts := content_parts st;
     total_tokens := total_tokens st;
     available_tokens := available_tokens st;
     files_skipped := files_skipped st ++ remaining;
     files_read := files_read st |}.

(** The scan as the specification words it: a hard stop once the budget is
    used up, every file from there on skipped unread; otherwise the file
    is read, and either accepted or skipped alone, and the scan goes on. *)
Inductive scan (include_line_numbers : bool)
  : list string → assembly → assembly → Prop :=
| scan_end st :
    scan include_line_numbers [] st st
| scan_exhausted file_path rest st :
    available_tokens st ≤ total_tokens st →
    scan include_line_numbers (file_path :: rest) st
      (skip_remaining (file_path :: rest) st)
| scan_accept file_path rest st file_content file_tokens st' :
    total_tokens st < available_tokens st →
    read_file_content E file_path 1000000 (Some include_line_numbers)
      = Ok (file_content, file_tokens) →
    total_tokens st + file_tokens ≤ available_tokens st →
    scan include_line_numbers rest
      (accept_file file_path file_content file_tokens st) st' →
    scan include_line_numbers (file_path :: rest) st st'
| scan_skip file_path rest st file_content file_tokens st' :
    total_tokens st < available_tokens st →
    read_file_content E file_path 1000000 (Some include_line_numbers)
      = Ok (file_content, file_tokens) →
    available_tokens st < total_tokens st + file_tokens →
    scan include_line_numbers rest (skip_file file_path st) st' →
    scan include_line_numbers (file_path :: rest) st st'.

(** The blocks [read_files] appends without charging them: the
    NO FILES FOUND block and the summary of the skipped files. *)
Definition notes_of (file_paths skipped : list string) : list string :=
  match file_paths, expand_paths E file_paths None with
  | _ :: _, Ok [] => [no_files_found_block file_paths]
  | _, _ => []
  end ++
  match skipped with
  | [] => []
  | _ :: _ => [skip_note skipped]
  end.

(** The accumulators agree: the list has no repetition and [seen] is the
    set of its elements. *)
Definition consistent (st : expansion) : Prop :=
  NoDup (expanded_files st) ∧ ∀ x, x ∈ seen st ↔ x ∈ expanded_files st.

(** [st'] is [st] with paths satisfying [P] appended. *)
Definition grows (P : string → Prop) (st st' : expansion) : Prop :=
  (consistent st → consistent st') ∧
  (∀ y, y ∈ expanded_files st → y ∈ expanded_files st') ∧
  (∀ y, y ∈ expanded_files st' → y ∈ expanded_files st ∨ P y).

(** A path the walk of the tree [t] of the directory [root] adds: a file
    that the tree has in a directory the walk reaches, whose name does not
    begin with a dot and whose suffix passes the extension filter.  The
    walk reaches [root] and, in a directory it reaches, the sub-directories
    that are kept: those whose name neither begins with a dot nor is
    excluded and that are not a copy of the server. *)
Inductive found_in (extensions : gset string)
  : string → dir_tree → string → Prop :=
| found_here root dirs files file :
    file ∈ files →
    Str.startswith "." file = false →
    extension_matches E extensions (joinpath (of_str root) (of_str file)) = true →
    found_in extensions root (DirNode dirs files)
      (str (joinpath (of_str root) (of_str file)))
| found_deeper root dirs files d sub y :
    (d, sub) ∈ dirs →
    Str.startswith "." d = false →
    d ∉ EXCLUDED_DIRS E →
    is_mcp_directory E (joinpath (of_str root) (of_str d)) = Ok false →
    found_in extensions (os_path_join root d) sub y →
    found_in extensions root (DirNode dirs files) y.

(** A path added because it was listed itself. *)
Definition listed (paths : list string) (y : string) : Prop :=
  ∃ path path_obj,
    path ∈ paths ∧ resolve_and_validate_path E path = Ok path_obj ∧
    path_exists E path_obj = Ok true ∧ is_file E path_obj = Ok true ∧
    y = str path_obj.

(** A path found by the walk of a listed directory, one that none of the
    three guards holds back. *)
Definition found_below (paths : list string) (extensions : gset string)
    (y : string) : Prop :=
  ∃ path path_obj,
    path ∈ paths ∧ resolve_and_validate_path E path = Ok path_obj ∧
    path_exists E path_obj = Ok true ∧ is_dir E path_obj = Ok true ∧
    directory_guards E path_obj = Ok false ∧ is_file E path_obj = Ok false ∧
    found_in extensions (str path_obj) (walk E path_obj) y.

(** The paths the body of [for file in files] offers to the accumulators. *)
Definition offered (extensions : gset string) (root : string)
    (files : list string) : list string :=
  omap (λ file,
          if Str.startswith "." file then None
          else
            let file_path := joinpath (of_str root) (of_str file) in
            if extension_matches E extensions file_path
            then Some (str file_path) else None)
       files.

(** The paths a walk offers to the accumulators, in the order of the walk,
    repetitions included. *)
Fixpoint walk_files (extensions : gset string) (root : string) (t : dir_tree)
  : result (list string) :=
  match t with
  | DirNode dirs files =>
      kept ← keep_dirs E root (map fst dirs);
      descend
        (λ d sub acc,
           l ← walk_files extensions (os_path_join root d) sub;
           Ok (acc ++ l))
        dirs kept (offered extensions root files)
  end.

(** The paths one entry of [paths] offers to the accumulators. *)
Definition entry_files (extensions : gset string) (path : string)
  : result (list string) :=
  match resolve_and_validate_path E path with
  | Raise e => if is_ValueError_or_PermissionError e then Ok [] else Raise e
  | Ok path_obj =>
      found ← path_exists E path_obj;
      if negb found then Ok []
      else
        dir ← is_dir E path_obj;
        skip ← (if dir : bool then directory_guards E path_obj else Ok false);
        if skip : bool then Ok []
        else
          file ← is_file E path_obj;
          if file : bool then Ok [str path_obj]
          else if dir : bool then
            walk_files extensions (str path_obj) (walk E path_obj)
          else Ok []
  end.

(** [if p not in seen: ...] for every path of a list. *)
Definition add_all (l : list string) (st : expansion) : expansion :=
  fold_left (λ st full_path, add_file full_path st) l st.

(** The blocks [read_file_content] can return for [file_path], each with
    the condition under which it is the one returned. *)
Inductive read_outcome (file_path : string) (max_size : Z)
    (include_line_numbers : option bool) : string → Prop :=
| outcome_error_accessing e :
    resolve_and_validate_path E file_path = Raise e →
    is_ValueError_or_PermissionError e = true →
    read_outcome file_path max_size include_line_numbers
      (error_accessing_block file_path
         (if in_docker E then docker_help E else exn_str e))
| outcome_not_found path :
    resolve_and_validate_path E file_path = Ok path →
    path_exists E path = Ok false →
    read_outcome file_path max_size include_line_numbers
      (not_found_block file_path)
| outcome_not_a_file path :
    resolve_and_validate_path E file_path = Ok path →
    path_exists E path = Ok true → is_file E path = Ok false →
    read_outcome file_path max_size include_line_numbers
      (not_a_file_block file_path)
| outcome_too_large path file_size :
    resolve_and_validate_path E file_path = Ok path →
    path_exists E path = Ok true → is_file E path = Ok true →
    st_size E path = Ok file_size → max_size < file_size →
    read_outcome file_path max_size include_line_numbers
      (too_large_block file_path file_size max_size)
| outcome_error_stat path e :
    resolve_and_validate_path E file_path = Ok path →
    path_exists E path = Raise e ∨
      (path_exists E path = Ok true ∧ is_file E path = Raise e) →
    read_outcome file_path max_size include_line_numbers
      (error_reading_block file_path (exn_str e))
| outcome_error_reading path e :
    resolve_and_validate_path E file_path = Ok path →
    path_exists E path = Ok true → is_file E path = Ok true →
    st_size E path = Raise e ∨
      (∃ file_size, st_size E path = Ok file_size ∧ file_size ≤ max_size ∧
                    read_text E path = Raise e) →
    read_outcome file_path max_size include_line_numbers
      (error_reading_block file_path (exn_str e))
| outcome_file path file_size file_content :
    resolve_and_validate_path E file_path = Ok path →
    path_exists E path = Ok true → is_file E path = Ok true →
    st_size E path = Ok file_size → file_size ≤ max_size →
    read_text E path = Ok file_content →
    read_outcome file_path max_size include_line_numbers
      (file_block file_path
         (if should_add_line_numbers file_path include_line_numbers
          then _add_line_numbers file_content
          else _normalize_line_endings file_content)).

End notions.

(** The number of digits [digits_go] writes. *)
Fixpoint ndigits_go (fuel : nat) (n : Z) : nat :=
  match fuel with
  | O => 1
  | S f => if n <? 10 then 1 else S (ndigits_go f (n / 10))
  end.

(** [c] occurs in [s]. *)
Fixpoint has_char (c : ascii) (s : string) : bool :=
  match s with
  | EmptyString => false
  | String d s' => bool_decide (c = d) || has_char c s'
  end.

(** ** Notions used to state the further properties *)

Section further_notions.
Context (E : Env).
Import PurePath.

(** The set of the paths collected so far. *)
Definition files_of (st : expansion) : gset string :=
  list_to_set (expanded_files st).

(** What one entry of [paths] adds to the result. *)
Definition contribution (extensions : gset string) (path : string)
  : gset string :=
  match expand_one E extensions path {| expanded_files := []; seen := ∅ |} with
  | Ok st => files_of st
  | Raise _ => ∅
  end.

(** The inline code block, when there is one and it is accepted. *)
Definition code_part_of (code : option string) (available : Z) : list string :=
  match truthy code with
  | Some c =>
      if estimate_tokens E (direct_code_block c) <=? available
      then [direct_code_block c] else []
  | None => []
  end.

End further_notions.

(** The kinds of block an assembled text is made of. *)
Inductive block_kind :=
| ErrorAccessing | NotFound | NotAFile | TooLarge | ErrorReading
| FileContent | DirectCode | NoFilesFound | SkippedFiles.

(** The seven characters that follow the line feed and the three dashes and
    a space every block begins with. *)
Definition block_label (block : string) : string := String.substring 5 7 block.

(** The kind of a block, read off its first line. *)
Definition kind_of_block (block : string) : option block_kind :=
  let label := block_label block in
  if bool_decide (label = "ERROR A") then Some ErrorAccessing
  else if bool_decide (label = "FILE NO") then Some NotFound
  else if bool_decide (label = "NOT A F") then Some NotAFile
  else if bool_decide (label = "FILE TO") then Some TooLarge
  else if bool_decide (label = "ERROR R") then Some ErrorReading
  else if bool_decide (label = "BEGIN F") then Some FileContent
  else if bool_decide (label = "BEGIN D") then Some DirectCode
  else if bool_decide (label = "NO FILE") then Some NoFilesFound
  else if bool_decide (label = " SKIPPE") then Some SkippedFiles
  else None.

(** A call that answered [True]. *)
Definition answers_true (r : result bool) : bool :=
  match r with Ok true => true | _ => false end.

(** The signature files found in [path]. *)
Definition signatures_present (E : Env) (path : Path) (sigs : list string)
  : list string :=
  List.filter
    (λ sig_file,
       answers_true
         (path_exists E (PurePath.joinpath path (PurePath.of_str sig_file))))
    sigs.

(** * Properties *)

(** ** The string and path operations on examples *)

Example of_Z_ex : Str.of_Z 2000000 = "2000000" ∧ Str.of_Z (-45) = "-45" ∧ Str.of_Z 0 = "0".
Proof. vm_compute. auto. Qed.
Example of_Z_comma_ex :
  Str.of_Z_comma 2000000 = "2,000,000" ∧ Str.of_Z_comma 999 = "999" ∧
  Str.of_Z_comma (-1234) = "-1,234" ∧ Str.of_Z_comma 100000 = "100,000".
Proof. vm_compute. auto. Qed.
Example split_ex :
  Str.split "/home/" "/home/bob/home/x" = [""; "bob"; "x"] ∧
  Str.split (String "010" "") (String "a" (String "010" (String "010" "b"))) = ["a"; ""; "b"]
  ∧ Str.split (String "010" "") "" = [""].
Proof. vm_compute. auto. Qed.
Example replace_ex :
  Str.replace "ab" "X" "cababa" = "cXXa" ∧ Str.format_d 4 17 = "  17" ∧ Str.format_d 1 123 = "123".
Proof. vm_compute. auto. Qed.

Example path_parse_ex :
  PurePath.of_str "/proj//src/./a.py" = mkPath Root ["proj"; "src"; "a.py"] ∧
  PurePath.of_str "//x" = mkPath Root2 ["x"] ∧
  PurePath.of_str "///x/" = mkPath Root ["x"] ∧
  PurePath.of_str "a/../b" = mkPath Relative ["a"; ".."; "b"] ∧
  PurePath.str (mkPath Relative []) = "." ∧
  PurePath.str (mkPath Root []) = "/" ∧
  PurePath.str (mkPath Root ["proj"; "a.py"]) = "/proj/a.py".
Proof. vm_compute. repeat split. Qed.

Example path_suffix_ex :
  PurePath.suffix (PurePath.of_str "/p/a.tar.GZ") = ".GZ" ∧
  PurePath.suffix (PurePath.of_str "/p/.bashrc") = "" ∧
  PurePath.suffix (PurePath.of_str "/p/name.") = "" ∧
  PurePath.suffix (PurePath.of_str "/p/Makefile") = "" ∧
  PurePath.suffix (PurePath.of_str "/p/.a.b") = ".b".
Proof. vm_compute. repeat split. Qed.

Example path_relative_to_ex :
  PurePath.relative_to (PurePath.of_str "/root-evil/x") (PurePath.of_str "/root")
    = Raise (ValueError "/root-evil/x is not in the subpath of /root") ∧
  PurePath.relative_to (PurePath.of_str "/root/x/y") (PurePath.of_str "/root")
    = Ok (mkPath Relative ["x"; "y"]) ∧
  PurePath.relative_to (PurePath.of_str "/root") (PurePath.of_str "/root")
    = Ok (mkPath Relative []).
Proof. vm_compute. repeat split. Qed.

Lemma code_points_nonneg (s : string) : 0 ≤ Str.code_points s.
Proof. induction s as [|c s IH]; simpl; [done|]. case_match; lia. Qed.

Lemma code_points_app (a b : string) :
  Str.code_points (a +:+ b) = Str.code_points a + Str.code_points b.
Proof. induction a as [|c a IH]; simpl; [done|]. rewrite IH. lia. Qed.

Lemma chars_div_4_nonneg (text : string) : 0 ≤ Demo.chars_div_4 text.
Proof. unfold Demo.chars_div_4. apply Z.div_pos; [apply code_points_nonneg|lia]. Qed.

(** ** Strings and paths *)

Section string_facts.

Lemma app_cons (c : ascii) (a b : string) :
  String c a +:+ b = String c (a +:+ b).
Proof. reflexivity. Qed.

Lemma app_nil_s (b : string) : "" +:+ b = b.
Proof. reflexivity. Qed.

Lemma startswith_app (a b : string) : Str.startswith a (a +:+ b) = true.
Proof.
  induction a as [|c a IH]; [by destruct b|].
  rewrite app_cons. simpl. by destruct (ascii_dec c c).
Qed.

Lemma startswith_inv (a s : string) :
  Str.startswith a s = true → ∃ b, s = a +:+ b.
Proof.
  revert s. induction a as [|c a IH]; intros s H.
  - by exists s.
  - destruct s as [|d s]; [done|]. simpl in H.
    destruct (ascii_dec c d) as [->|]; [|discriminate].
    destruct (IH _ H) as [b ->]. by exists b.
Qed.

Lemma app_assoc_s (a b c : string) : (a +:+ b) +:+ c = a +:+ (b +:+ c).
Proof. induction a as [|x a IH]; [done|]. by rewrite !app_cons, IH. Qed.

Lemma app_empty_r (a : string) : a +:+ "" = a.
Proof. induction a as [|x a IH]; [done|]. by rewrite app_cons, IH. Qed.

Lemma app_length_s (a b : string) :
  String.length (a +:+ b) = (String.length a + String.length b)%nat.
Proof. induction a as [|x a IH]; [done|]. rewrite app_cons. simpl. by rewrite IH. Qed.

Lemma join_app (sep : string) (l1 l2 : list string) :
  l1 ≠ [] → l2 ≠ [] →
  Str.join sep (l1 ++ l2) = Str.join sep l1 +:+ sep +:+ Str.join sep l2.
Proof.
  intros H1 H2. induction l1 as [|x [|y l1] IH]; [done| |].
  - destruct l2; [done|]. reflexivity.
  - change (Str.join sep ((x :: y :: l1) ++ l2))
      with (x +:+ sep +:+ Str.join sep ((y :: l1) ++ l2)).
    rewrite IH by done.
    change (Str.join sep (x :: y :: l1)) with (x +:+ sep +:+ Str.join sep (y :: l1)).
    by rewrite !app_assoc_s.
Qed.

End string_facts.

Section path_facts.
Import PurePath.

Lemma strip_prefix_Some (pre xs rest : list string) :
  strip_prefix pre xs = Some rest ↔ xs = pre ++ rest.
Proof.
  revert xs. induction pre as [|a pre IH]; intros xs; simpl.
  - split; [by intros [= ->]|by intros ->].
  - destruct xs as [|b xs]; [done|].
    case_bool_decide as Hab; [subst b|].
    + rewrite IH. split; [by intros ->|by intros [= ->]].
    + split; [done|]. intros [= ? _]. by subst.
Qed.

Lemma strip_prefix_refl (xs : list string) : strip_prefix xs xs = Some [].
Proof. apply strip_prefix_Some. by rewrite app_nil_r. Qed.

(** [relative_to] succeeds exactly on the descendants of [other]: a test
    on whole components, the root included. *)
Lemma relative_to_Ok (p other : Path) :
  (∃ rel, relative_to p other = Ok rel) ↔ descendant_of other p.
Proof.
  unfold relative_to, descendant_of. split.
  - intros [rel H]. case_bool_decide as Hr; [|done].
    destruct (strip_prefix _ _) as [rest|] eqn:Hs; [|done].
    apply strip_prefix_Some in Hs. eauto.
  - intros [Hr [rest Hp]]. rewrite bool_decide_true by done.
    apply strip_prefix_Some in Hp. rewrite Hp. eauto.
Qed.

Lemma relative_to_raises (p other : Path) (e : exn) :
  relative_to p other = Raise e → is_ValueError e = true.
Proof.
  unfold relative_to. case_bool_decide; [destruct (strip_prefix _ _)|];
    by intros [= <-].
Qed.

Lemma relative_to_self (p : Path) :
  relative_to p p = Ok {| root := Relative; parts := [] |}.
Proof.
  unfold relative_to. rewrite bool_decide_true by done.
  by rewrite strip_prefix_refl.
Qed.

Lemma descendant_of_absolute (anc p : Path) :
  descendant_of anc p → is_absolute anc = true → is_absolute p = true.
Proof. intros [Hr _]. unfold is_absolute. by rewrite Hr. Qed.

(** The boundary is a component boundary: [/root-evil] is not below
    [/root]. *)
Example sibling_with_common_prefix :
  ¬ descendant_of (of_str "/root") (of_str "/root-evil/x").
Proof. intros [_ [rest H]]. vm_compute in H. discriminate. Qed.

End path_facts.

(** ** resolve_and_validate_path *)

Section validator.
Context (E : Env).
Import PurePath.

(** The three outcomes of the validator. *)
Lemma resolve_and_validate_path_cases (path_str : string) :
  let user_path := of_str (translate_path_for_environment E path_str) in
  match resolve_and_validate_path E path_str with
  | Ok r =>
      is_absolute user_path = true ∧ resolve E user_path = Ok r ∧
      descendant_of (SECURITY_ROOT E) r
  | Raise e =>
      (is_absolute user_path = false ∧ e = ValueError (relative_msg path_str)) ∨
      (is_absolute user_path = true ∧ resolve E user_path = Raise e) ∨
      (is_absolute user_path = true ∧ ∃ r, resolve E user_path = Ok r ∧
         ¬ descendant_of (SECURITY_ROOT E) r ∧
         e = PermissionError (outside_msg E path_str r))
  end.
Proof.
  intros user_path. unfold resolve_and_validate_path. fold user_path.
  destruct (is_absolute user_path) eqn:Habs; simpl; [|by left].
  destruct (resolve E user_path) as [r|e] eqn:Hres; simpl; [|by right; left].
  destruct (relative_to r (SECURITY_ROOT E)) as [rel|e] eqn:Hrel; simpl.
  - split_and!; [done..|]. apply relative_to_Ok. eauto.
  - rewrite (relative_to_raises _ _ _ Hrel). simpl.
    right; right. split; [done|]. exists r. split_and!; [done| |done].
    intros [rel Hd]%relative_to_Ok. congruence.
Qed.

End validator.

(** C1.  Whatever string it is given, [resolve_and_validate_path] either
    raises or returns the canonical form, as [Path.resolve()] computes it, of
    the (translated) input, and that returned path is absolute and is the
    sandbox root or lies below it.  The containment test is made on the
    canonical path, after links and [..] segments are resolved, and the
    path returned is the one tested. *)
Theorem resolve_and_validate_path_contained (E : Env) (path_str : string) :
  PurePath.is_absolute (SECURITY_ROOT E) = true →
  match resolve_and_validate_path E path_str with
  | Raise _ => True
  | Ok r =>
      resolve E (PurePath.of_str (translate_path_for_environment E path_str)) = Ok r ∧
      PurePath.is_absolute r = true ∧
      PurePath.descendant_of (SECURITY_ROOT E) r
  end.
Proof.
  intros Hroot. pose proof (resolve_and_validate_path_cases E path_str) as H.
  simpl in H. destruct (resolve_and_validate_path E path_str) as [r|e]; [|done].
  destruct H as (_ & Hres & Hd). split_and!; [done| |done].
  by eapply descendant_of_absolute.
Qed.

Lemma resolve_and_validate_path_contained_witness :
  resolve_and_validate_path Demo.direct "/proj/src/../a.py"
    = Ok (PurePath.of_str "/proj/a.py") ∧
  PurePath.descendant_of (SECURITY_ROOT Demo.direct) (PurePath.of_str "/proj/a.py").
Proof.
  generalize (resolve_and_validate_path_contained Demo.direct "/proj/src/../a.py"
                eq_refl).
  vm_compute. intros (_ & _ & H). split; [reflexivity|exact H].
Defined.

(** A link that points out of the sandbox, a [..] that climbs out of it and
    a translated path outside the mount are all refused. *)
Example escapes_are_refused :
  raises (resolve_and_validate_path Demo.direct "/proj/escape/passwd") ∧
  raises (resolve_and_validate_path Demo.direct "/proj/../etc/passwd") ∧
  raises (resolve_and_validate_path Demo.docker "/etc/passwd") ∧
  raises (resolve_and_validate_path Demo.docker "/workspace/../etc/passwd").
Proof. vm_compute. done. Qed.

(** C9.  Containment is inclusive.  When the (translated) input
    canonicalizes to the sandbox root itself, the validator never answers
    [PermissionError], and for an absolute input it returns the root. *)
Theorem resolve_and_validate_path_root (E : Env) (path_str : string) :
  let user_path := PurePath.of_str (translate_path_for_environment E path_str) in
  resolve E user_path = Ok (SECURITY_ROOT E) →
  (PurePath.is_absolute user_path = true →
   resolve_and_validate_path E path_str = Ok (SECURITY_ROOT E)) ∧
  (∀ msg, resolve_and_validate_path E path_str ≠ Raise (PermissionError msg)).
Proof.
  intros user_path Hres. unfold resolve_and_validate_path. fold user_path.
  destruct (PurePath.is_absolute user_path); simpl.
  - rewrite Hres. simpl. rewrite relative_to_self. simpl. by split.
  - split; [done|]. by intros msg.
Qed.

Lemma resolve_and_validate_path_root_witness :
  resolve_and_validate_path Demo.direct "/proj/src/.." = Ok (SECURITY_ROOT Demo.direct).
Proof.
  apply (resolve_and_validate_path_root Demo.direct "/proj/src/.."); reflexivity.
Defined.

(** ** read_files: the budget *)

Section budget.
Context (E : Env).

Lemma sum_tokens_app (l1 l2 : list string) :
  sum_tokens E (l1 ++ l2) = sum_tokens E l1 + sum_tokens E l2.
Proof. induction l1 as [|x l1 IH]; simpl; lia. Qed.

Lemma sum_tokens_nonneg (l : list string) :
  (∀ s, 0 ≤ estimate_tokens E s) → 0 ≤ sum_tokens E l.
Proof. intros H. induction l as [|x l IH]; simpl; [lia|]. specialize (H x). lia. Qed.

Lemma sum_tokens_zero (l : list string) :
  (∀ s, 0 ≤ estimate_tokens E s) → sum_tokens E l = 0 →
  ∀ b, b ∈ l → estimate_tokens E b = 0.
Proof.
  intros H. induction l as [|x l IH]; simpl; intros Hs b Hb.
  - by apply elem_of_nil in Hb.
  - pose proof (H x). pose proof (sum_tokens_nonneg l H).
    apply elem_of_cons in Hb as [->|Hb]; [lia|]. apply IH; [lia|done].
Qed.

Lemma read_validated_tokens file_path path max_size include_line_numbers c t :
  read_validated E file_path path max_size include_line_numbers = Ok (c, t) →
  t = estimate_tokens E c.
Proof.
  unfold read_validated, with_tokens.
  destruct (path_exists E path) as [[]|]; simpl; [|by intros [= <- <-]|done].
  destruct (is_file E path) as [[]|]; simpl; [|by intros [= <- <-]|done].
  destruct (st_size E path) as [file_size|]; simpl; [|done].
  destruct (max_size <? file_size); [by intros [= <- <-]|].
  destruct (read_text E path) as [file_content|]; simpl; [|done].
  by intros [= <- <-].
Qed.

(** Every block [read_file_content] returns comes with its own estimate. *)
Lemma read_file_content_tokens file_path max_size include_line_numbers c t :
  read_file_content E file_path max_size include_line_numbers = Ok (c, t) →
  t = estimate_tokens E c.
Proof.
  unfold read_file_content, with_tokens.
  destruct (resolve_and_validate_path E file_path) as [path|e].
  - destruct (read_validated E file_path path max_size include_line_numbers)
      as [[c' t']|e] eqn:Hrv; simpl.
    + intros [= <- <-]. by eapply read_validated_tokens.
    + by intros [= <- <-].
  - destruct (is_ValueError_or_PermissionError e); [by intros [= <- <-]|done].
Qed.

Lemma read_loop_scan_1 include_line_numbers all_files st st' :
  read_loop E include_line_numbers all_files st = Ok st' →
  scan E include_line_numbers all_files st st'.
Proof.
  revert st. induction all_files as [|f rest IH]; intros st; simpl.
  - intros [= <-]. constructor.
  - destruct (Z.leb_spec (available_tokens st) (total_tokens st)) as [Hex|Hne].
    { intros [= <-]. by apply scan_exhausted. }
    destruct (read_file_content E f 1000000 (Some include_line_numbers))
      as [[c t]|e] eqn:Hread; simpl; [|done].
    destruct (Z.leb_spec (total_tokens st + t) (available_tokens st)) as [Hfit|Hbig].
    + intros H%IH. by eapply scan_accept.
    + intros H%IH. by eapply scan_skip.
Qed.

Lemma read_loop_scan_2 include_line_numbers all_files st st' :
  scan E include_line_numbers all_files st st' →
  read_loop E include_line_numbers all_files st = Ok st'.
Proof.
  induction 1 as [st|f rest st Hex|f rest st c t st' Hne Hread Hfit _ IH
                 |f rest st c t st' Hne Hread Hbig _ IH]; simpl.
  - done.
  - by rewrite (proj2 (Z.leb_le _ _) Hex).
  - rewrite (proj2 (Z.leb_gt _ _) Hne), Hread. simpl.
    by rewrite (proj2 (Z.leb_le _ _) Hfit).
  - rewrite (proj2 (Z.leb_gt _ _) Hne), Hread. simpl.
    by rewrite (proj2 (Z.leb_gt _ _) Hbig).
Qed.

(** What a finished scan leaves behind: the reads are an initial segment
    of the list, the files after it were all added to the skipped list
    unread, and they are there only because the budget was used up. *)
Lemma scan_reads_prefix include_line_numbers all_files st st' :
  scan E include_line_numbers all_files st st' →
  ∃ attempted unread skipped_alone,
    all_files = attempted ++ unread ∧
    files_read st' = files_read st ++ attempted ∧
    files_skipped st' = files_skipped st ++ skipped_alone ++ unread ∧
    skipped_alone ⊆ attempted ∧
    (unread ≠ [] → available_tokens st' ≤ total_tokens st') ∧
    available_tokens st' = available_tokens st.
Proof.
  induction 1 as [st|f rest st Hex|f rest st c t st' Hne Hread Hfit _ IH
                 |f rest st c t st' Hne Hread Hbig _ IH].
  - exists [], [], []. simpl. rewrite !app_nil_r. split_and!; try done.
  - exists [], (f :: rest), []. simpl. rewrite !app_nil_r. split_and!; try done.
  - destruct IH as (att & unread & alone & -> & Hr & Hs & Hsub & Hu & Ha).
    exists (f :: att), unread, alone. simpl in *.
    rewrite Hr, Hs, <- !app_assoc. split_and!; try done.
    intros x Hx. right. by apply Hsub.
  - destruct IH as (att & unread & alone & -> & Hr & Hs & Hsub & Hu & Ha).
    exists (f :: att), unread, (f :: alone). simpl in *.
    rewrite Hr, Hs, <- !app_assoc. split_and!; try done.
    intros x [->|Hx]%elem_of_cons; [by left|right; by apply Hsub].
Qed.

(** The accepted blocks of a scan and what they cost. *)
Lemma scan_accepted include_line_numbers all_files st st' :
  scan E include_line_numbers all_files st st' →
  ∃ accepted,
    content_parts st' = content_parts st ++ accepted ∧
    total_tokens st' = total_tokens st + sum_tokens E accepted ∧
    (accepted ≠ [] → total_tokens st' ≤ available_tokens st) ∧
    (available_tokens st ≤ total_tokens st → accepted = [] ∧ files_read st' = files_read st).
Proof.
  induction 1 as [st|f rest st Hex|f rest st c t st' Hne Hread Hfit Hscan IH
                 |f rest st c t st' Hne Hread Hbig _ IH].
  - exists []. simpl. rewrite app_nil_r. split_and!; [done|lia|done|done].
  - exists []. simpl. rewrite app_nil_r. split_and!; [done|lia|done|done].
  - destruct IH as (acc & Hc & Ht & Hb & _).
    apply read_file_content_tokens in Hread as ->.
    exists (c :: acc). simpl in *. rewrite Hc, <- app_assoc.
    split_and!; [done|lia| |lia].
    intros _. destruct acc as [|b acc]; [simpl in *; lia|]. by apply Hb.
  - destruct IH as (acc & Hc & Ht & Hb & _).
    exists acc. simpl in *. split_and!; [done|done|done|lia].
Qed.

Lemma add_direct_code_shape code A :
  let st := add_direct_code E code
              {| content_parts := []; total_tokens := 0; available_tokens := A;
                 files_skipped := []; files_read := [] |} in
  total_tokens st = sum_tokens E (content_parts st) ∧
  available_tokens st = A - total_tokens st ∧
  (content_parts st ≠ [] → total_tokens st ≤ A) ∧
  files_skipped st = [] ∧ files_read st = [].
Proof.
  unfold add_direct_code. destruct (truthy code) as [c|]; simpl.
  - destruct (Z.leb_spec (estimate_tokens E (direct_code_block c)) A); simpl;
      split_and!; try done; lia.
  - split_and!; try done; lia.
Qed.

Lemma add_files_cases file_paths include_line_numbers st :
  match file_paths with
  | [] => add_files E file_paths include_line_numbers st = Ok st
  | _ :: _ =>
      match expand_paths E file_paths None with
      | Raise e => add_files E file_paths include_line_numbers st = Raise e
      | Ok [] =>
          add_files E file_paths include_line_numbers st
          = Ok {| content_parts :=
                    content_parts st ++ [no_files_found_block file_paths];
                  total_tokens := total_tokens st;
                  available_tokens := available_tokens st;
                  files_skipped := files_skipped st;
                  files_read := files_read st |}
      | Ok (f :: fs) =>
          add_files E file_paths include_line_numbers st
          = read_loop E include_line_numbers (f :: fs) st
      end
  end.
Proof.
  unfold add_files. destruct file_paths as [|p ps]; [done|].
  by destruct (expand_paths E (p :: ps) None) as [[|f fs]|e].
Qed.

Lemma add_skip_note_fields (st : assembly) :
  files_skipped (add_skip_note st) = files_skipped st ∧
  total_tokens (add_skip_note st) = total_tokens st ∧
  files_read (add_skip_note st) = files_read st ∧
  content_parts (add_skip_note st)
  = content_parts st ++
    match files_skipped st with
    | [] => []
    | _ :: _ => [skip_note (files_skipped st)]
    end.
Proof.
  unfold add_skip_note.
  destruct (files_skipped st) as [|f fs] eqn:Hs; simpl;
    rewrite ?app_nil_r, ?Hs; done.
Qed.

(** The shape of every result of [read_files]: accepted blocks first, then
    the uncharged notes; [total_tokens] is the estimate of the accepted
    blocks alone. *)
Lemma read_files_state_shape file_paths code max_tokens reserve_tokens
    include_line_numbers st :
  read_files_state E file_paths code max_tokens reserve_tokens
    include_line_numbers = Ok st →
  let A := default (DEFAULT_CONTEXT_WINDOW E) max_tokens - reserve_tokens in
  ∃ accepted,
    content_parts st = accepted ++ notes_of E file_paths (files_skipped st) ∧
    total_tokens st = sum_tokens E accepted ∧
    ((∀ s, 0 ≤ estimate_tokens E s) →
       (accepted ≠ [] → total_tokens st ≤ A) ∧
       (A ≤ 0 → total_tokens st = 0 ∧ files_read st = [])).
Proof.
  intros H A. unfold read_files_state in H. fold A in H.
  pose proof (add_direct_code_shape code A) as Hcode. simpl in Hcode.
  set (st1 := add_direct_code E code _) in *.
  destruct Hcode as (Ht1 & Ha1 & Hb1 & Hs1 & Hr1).
  destruct (add_files E file_paths include_line_numbers st1) as [st2|e] eqn:Hadd;
    [|done].
  simpl in H. injection H as <-.
  destruct (add_skip_note_fields st2) as (Hsk & Htot & Hrd & Hcp).
  rewrite Hsk, Htot, Hrd, Hcp. clear Hsk Htot Hrd Hcp.
  pose proof (add_files_cases file_paths include_line_numbers st1) as Hcases.
  unfold notes_of.
  destruct file_paths as [|p ps].
  { rewrite Hcases in Hadd. injection Hadd as <-. exists (content_parts st1). simpl.
    split_and!; [done..|]. intros Hnn. split; [done|].
    intros HA. split; [|done].
    destruct (content_parts st1) eqn:Hc; [by rewrite Ht1|].
    pose proof (sum_tokens_nonneg (content_parts st1) Hnn). rewrite Hc in *.
    specialize (Hb1 ltac:(done)). lia. }
  destruct (expand_paths E (p :: ps) None) as [[|f fs]|e];
    rewrite Hcases in Hadd; [| |done].
  { injection Hadd as <-. exists (content_parts st1). simpl.
    rewrite Hs1. simpl. rewrite app_nil_r.
    split_and!; [done..|]. intros Hnn. split; [done|].
    intros HA. split; [|done].
    destruct (content_parts st1) eqn:Hc; [by rewrite Ht1|].
    pose proof (sum_tokens_nonneg (content_parts st1) Hnn). rewrite Hc in *.
    specialize (Hb1 ltac:(done)). lia. }
  apply read_loop_scan_1 in Hadd.
  destruct (scan_accepted _ _ _ _ Hadd) as (acc & Hc & Ht & Hb & Hstop).
  pose proof (scan_reads_prefix _ _ _ _ Hadd) as (att & unread & alone & _ & Hr & _).
  exists (content_parts st1 ++ acc). simpl.
  rewrite Hc, Ht, Ht1, sum_tokens_app.
  split_and!; [done..|]. intros Hnn.
  pose proof (sum_tokens_nonneg (content_parts st1) Hnn) as Hn1.
  pose proof (sum_tokens_nonneg acc Hnn) as Hn2.
  rewrite Ht, Ht1 in Hb. rewrite Ht1 in Ha1, Hb1. rewrite Ha1 in Hb. split.
  - intros Hne. destruct acc as [|b acc].
    + rewrite app_nil_r in Hne. specialize (Hb1 Hne). simpl. lia.
    + specialize (Hb ltac:(done)). lia.
  - intros HA.
    assert (sum_tokens E (content_parts st1) = 0) as Hz.
    { destruct (content_parts st1) eqn:Hcs; [done|].
      specialize (Hb1 ltac:(done)). lia. }
    destruct Hstop as [-> Hrd]; [rewrite Ha1, Ht1; lia|].
    rewrite Hrd, Hr1. simpl. split; [lia|done].
Qed.

End budget.

(** C3.  The file loop of [read_files] is the scan of the specification:
    once the tokens used meet or exceed the available budget the loop stops
    and every file from there to the end of the list is marked skipped
    without being read; otherwise the file is read, accepted when
    [used + file_tokens <= available], and else skipped alone, the scan
    going on with the next file. *)
Theorem read_loop_is_scan (E : Env) (include_line_numbers : bool)
    (all_files : list string) (st st' : assembly) :
  read_loop E include_line_numbers all_files st = Ok st' ↔
  scan E include_line_numbers all_files st st'.
Proof. split; [apply read_loop_scan_1|apply read_loop_scan_2]. Qed.

(** With 60 tokens, [b.py] (109 tokens) does not fit and is skipped alone;
    the smaller [c.py] after it is still read and accepted. *)
Lemma read_loop_is_scan_witness :
  scan Demo.direct false ["/proj/a.py"; "/proj/b.py"; "/proj/c.py"]
    (mkAssembly [] 0 60 [] [])
    (mkAssembly
       [file_block "/proj/a.py" ("import os" +:+ LF +:+ "x = 1" +:+ LF +:+ "print(x)");
        file_block "/proj/c.py" "c = 3"]
       37 60 ["/proj/b.py"] ["/proj/a.py"; "/proj/b.py"; "/proj/c.py"]).
Proof. apply read_loop_is_scan. vm_compute. reflexivity. Defined.

(** With 21 tokens, [a.py] uses the budget up exactly; [b.py] and [c.py]
    are skipped in bulk and neither is read, although [c.py] is small. *)
Example read_loop_hard_stop :
  read_loop Demo.direct false ["/proj/a.py"; "/proj/b.py"; "/proj/c.py"]
    (mkAssembly [] 0 21 [] [])
  = Ok (mkAssembly
          [file_block "/proj/a.py" ("import os" +:+ LF +:+ "x = 1" +:+ LF +:+ "print(x)")]
          21 21 ["/proj/b.py"; "/proj/c.py"] ["/proj/a.py"]).
Proof. vm_compute. reflexivity. Qed.

(** C8.  The NO FILES FOUND block and the summary of skipped files are
    appended whatever the budget: the result is always the accepted blocks
    followed by these notes, [total_tokens] counts the accepted blocks
    only, and the estimate of the returned string can exceed
    [max_tokens - reserve_tokens] while [total_tokens] does not. *)
Theorem notes_are_outside_the_budget :
  (∀ (E : Env) file_paths code max_tokens reserve_tokens include_line_numbers st,
     read_files_state E file_paths code max_tokens reserve_tokens
       include_line_numbers = Ok st →
     ∃ accepted,
       content_parts st = accepted ++ notes_of E file_paths (files_skipped st) ∧
       total_tokens st = sum_tokens E accepted) ∧
  (∃ st out,
     read_files_state Demo.direct ["/nope"] None (Some 10) 0 false = Ok st ∧
     read_files Demo.direct ["/nope"] None (Some 10) 0 false = Ok out ∧
     out = no_files_found_block ["/nope"] ∧
     total_tokens st ≤ 10 - 0 ∧ 10 - 0 < estimate_tokens Demo.direct out) ∧
  (∃ st out,
     read_files_state Demo.direct ["/proj/a.py"; "/proj/b.py"] None (Some 5) 0 false = Ok st ∧
     read_files Demo.direct ["/proj/a.py"; "/proj/b.py"] None (Some 5) 0 false = Ok out ∧
     out = skip_note ["/proj/a.py"; "/proj/b.py"] ∧
     total_tokens st ≤ 5 - 0 ∧ 5 - 0 < estimate_tokens Demo.direct out).
Proof.
  split_and!.
  - intros E file_paths code max_tokens reserve_tokens include_line_numbers st Hrun.
    destruct (read_files_state_shape E _ _ _ _ _ _ Hrun) as (accepted & Hc & Ht & _).
    by exists accepted.
  - do 2 eexists. split_and!; [vm_compute; reflexivity..| |].
    + vm_compute. discriminate.
    + vm_compute. reflexivity.
  - do 2 eexists. split_and!; [vm_compute; reflexivity..| |].
    + vm_compute. discriminate.
    + vm_compute. reflexivity.
Qed.

(** ** translate_path_for_environment *)

Section translation.
Context (E : Env).
Import PurePath.

Lemma str_absolute (p : Path) :
  is_absolute p = true →
  str p = anchor_str (root p) +:+ Str.join "/" (parts p).
Proof.
  unfold is_absolute, str. case_bool_decide as Hr; [done|]. intros _.
  rewrite bool_decide_false; [done|]. by destruct (root p).
Qed.

(** A path built below the container mount reads as a container path. *)
Lemma container_join_is_container_path (rest : list string) :
  is_absolute (CONTAINER_WORKSPACE E) = true →
  parts (CONTAINER_WORKSPACE E) ≠ [] →
  is_container_path E
    (str (joinpath (CONTAINER_WORKSPACE E) {| root := Relative; parts := rest |}))
  = true.
Proof.
  intros Habs Hne. unfold is_container_path, joinpath. simpl.
  destruct rest as [|x rest].
  - rewrite app_nil_r. destruct (CONTAINER_WORKSPACE E) as [r ps]. simpl.
    rewrite bool_decide_true by done. apply orb_true_r.
  - rewrite (str_absolute (CONTAINER_WORKSPACE E)) by done.
    rewrite str_absolute by done. simpl.
    rewrite join_app by done.
    rewrite <- !app_assoc_s. by rewrite startswith_app.
Qed.

Lemma translate_container_path (path_str : string) :
  is_container_path E path_str = true →
  translate_path_for_environment E path_str = path_str.
Proof.
  intros H. unfold translate_path_for_environment.
  destruct (mount_configured E); [|done]. by rewrite H.
Qed.

Lemma translate_host_path_is_container_path (w path_str s : string) :
  is_absolute (CONTAINER_WORKSPACE E) = true →
  parts (CONTAINER_WORKSPACE E) ≠ [] →
  translate_host_path E w path_str = Ok s →
  is_container_path E s = true.
Proof.
  intros Habs Hne. unfold translate_host_path.
  destruct (realpath E w) as [real|]; simpl; [|done].
  destruct (resolve E (of_str path_str)) as [hp|]; simpl; [|done].
  unfold relative_to. case_bool_decide; simpl; [|done].
  destruct (strip_prefix _ _) as [rest|]; simpl; [|done].
  intros [= <-]. by apply container_join_is_container_path.
Qed.

End translation.

(** C4 as stated fails: a path outside the host root is answered with the
    sentinel prefix in front of it, and translating the answer puts the
    prefix in front once more. *)
Lemma translate_not_idempotent :
  mount_configured Demo.docker = Some "/Users/john/project" ∧
  translate_path_for_environment Demo.docker "/etc/passwd"
    = "/inaccessible/outside/mounted/volume/etc/passwd" ∧
  translate_path_for_environment Demo.docker
    (translate_path_for_environment Demo.docker "/etc/passwd")
    = "/inaccessible/outside/mounted/volume/inaccessible/outside/mounted/volume/etc/passwd" ∧
  translate_path_for_environment Demo.docker
    (translate_path_for_environment Demo.docker "/etc/passwd")
    ≠ translate_path_for_environment Demo.docker "/etc/passwd".
Proof. vm_compute. split_and!; [reflexivity..|discriminate]. Qed.

(** The second translation of a failed one need not fail: started in
    [/srv/a/b/c/d/e], the relative path below is outside the host root, but
    behind the sentinel prefix its [..] segments climb out of the prefix and
    the whole canonicalizes into the host root. *)
Example translate_twice_reaches_the_mount :
  translate_path_for_environment Demo.docker_deep
    "../../../../../Users/john/project/x.py"
    = "/inaccessible/outside/mounted/volume../../../../../Users/john/project/x.py" ∧
  translate_path_for_environment Demo.docker_deep
    (translate_path_for_environment Demo.docker_deep
       "../../../../../Users/john/project/x.py")
    = "/workspace/x.py".
Proof. vm_compute. split; reflexivity. Qed.

(** C4, amended.  With the mount configured at an absolute container path
    other than [/], translating twice gives the same as translating once
    exactly when the first translation begins with the container path.
    That is so for every input that is translated successfully: one that
    already begins with the container path is returned unchanged, and one
    that canonicalizes to the host root or below it is mapped to a path that
    begins with the container path.  A translation that fails is the input
    behind a sentinel prefix; whatever the input, the second translation
    begins with the container path or is the first one behind a sentinel
    prefix. *)
Theorem translate_idempotent_iff_container_path (E : Env) (w path_str : string) :
  PurePath.is_absolute (CONTAINER_WORKSPACE E) = true →
  parts (CONTAINER_WORKSPACE E) ≠ [] →
  mount_configured E = Some w →
  let translated := translate_path_for_environment E path_str in
  (translate_path_for_environment E translated = translated ↔
   is_container_path E translated = true) ∧
  (is_container_path E path_str = true → translated = path_str) ∧
  (∀ s, is_container_path E path_str = false →
        translate_host_path E w path_str = Ok s →
        translated = s ∧ is_container_path E s = true) ∧
  (∀ e, is_container_path E path_str = false →
        translate_host_path E w path_str = Raise e →
        translated
        = (if is_ValueError e then "/inaccessible/outside/mounted/volume"
           else "/inaccessible/translation/error") +:+ path_str) ∧
  (is_container_path E (translate_path_for_environment E translated) = true ∨
   translate_path_for_environment E translated
     = "/inaccessible/outside/mounted/volume" +:+ translated ∨
   translate_path_for_environment E translated
     = "/inaccessible/translation/error" +:+ translated).
Proof.
  intros Habs Hne Hm translated.
  assert (∀ q, is_container_path E (translate_path_for_environment E q) = true ∨
               translate_path_for_environment E q
                 = "/inaccessible/outside/mounted/volume" +:+ q ∨
               translate_path_for_environment E q
                 = "/inaccessible/translation/error" +:+ q) as Hcases.
  { intros q. unfold translate_path_for_environment. rewrite Hm.
    destruct (is_container_path E q) eqn:Hc; [by left|].
    destruct (translate_host_path E w q) as [s|e] eqn:Hs.
    - left. by eapply translate_host_path_is_container_path.
    - right. destruct e; auto. }
  assert (∀ (pre q : string), pre ≠ "" → pre +:+ q ≠ q) as Hlonger.
  { intros pre q Hpre Heq. apply (f_equal String.length) in Heq.
    rewrite app_length_s in Heq. destruct pre; [done|]. simpl in Heq. lia. }
  split_and!.
  - split; [|apply translate_container_path].
    intros Hsame. destruct (Hcases translated) as [Hc|[H|H]].
    + by rewrite Hsame in Hc.
    + rewrite Hsame in H. symmetry in H. by apply Hlonger in H.
    + rewrite Hsame in H. symmetry in H. by apply Hlonger in H.
  - apply translate_container_path.
  - intros s Hc Hs. subst translated. unfold translate_path_for_environment.
    rewrite Hm, Hc, Hs. split; [done|].
    by eapply translate_host_path_is_container_path.
  - intros e Hc He. subst translated. unfold translate_path_for_environment.
    rewrite Hm, Hc, He. by destruct e.
  - apply Hcases.
Qed.

Lemma translate_idempotent_iff_container_path_witness :
  translate_path_for_environment Demo.docker "/Users/john/project/src/file.py"
    = "/workspace/src/file.py" ∧
  translate_path_for_environment Demo.docker
    (translate_path_for_environment Demo.docker "/Users/john/project/src/file.py")
    = translate_path_for_environment Demo.docker "/Users/john/project/src/file.py".
Proof.
  split; [vm_compute; reflexivity|].
  apply (proj1 (translate_idempotent_iff_container_path Demo.docker
                  "/Users/john/project" "/Users/john/project/src/file.py"
                  ltac:(vm_compute; reflexivity) ltac:(vm_compute; discriminate)
                  ltac:(vm_compute; reflexivity))).
  vm_compute. reflexivity.
Defined.

(** ** _add_line_numbers *)

Section decimal.

Lemma digits_go_length (fuel : nat) (n : Z) (acc : string) :
  String.length (Str.digits_go fuel n acc)
  = (ndigits_go fuel n + String.length acc)%nat.
Proof.
  revert n acc. induction fuel as [|f IH]; intros n acc; simpl; [done|].
  destruct (n <? 10); [done|]. rewrite IH. simpl. lia.
Qed.

Lemma log2_div10 (n : Z) : 10 ≤ n → Z.log2 (n / 10) < Z.log2 n.
Proof.
  intros Hn. apply Z.log2_lt_pow2.
  - apply Z.div_str_pos. lia.
  - pose proof (Z.log2_spec n ltac:(lia)) as [_ Hup].
    rewrite Z.pow_succ_r in Hup by apply Z.log2_nonneg.
    apply Z.div_lt_upper_bound; lia.
Qed.

(** Fuel beyond [log2 n] changes nothing. *)
Lemma ndigits_go_fuel (f1 f2 : nat) (n : Z) :
  0 ≤ n → (Z.to_nat (Z.log2 n) ≤ f1)%nat → (Z.to_nat (Z.log2 n) ≤ f2)%nat →
  ndigits_go f1 n = ndigits_go f2 n.
Proof.
  revert f2 n. induction f1 as [|f1 IH]; intros f2 n Hn H1 H2.
  - assert (Z.log2 n = 0) as Hl by (pose proof (Z.log2_nonneg n); lia).
    assert (n < 10).
    { destruct (Z.le_gt_cases n 0) as [?|Hpos]; [lia|].
      pose proof (Z.log2_spec n Hpos) as [_ Hup]. rewrite Hl in Hup. simpl in Hup. lia. }
    destruct f2; simpl; [done|]. by rewrite (proj2 (Z.ltb_lt _ _)).
  - simpl. destruct (Z.ltb_spec n 10) as [Hlt|Hge].
    + destruct f2; simpl; [done|]. by rewrite (proj2 (Z.ltb_lt _ _)).
    + pose proof (log2_div10 n Hge) as Hlog.
      pose proof (Z.log2_nonneg (n / 10)).
      destruct f2 as [|f2]; [lia|]. simpl.
      rewrite (proj2 (Z.ltb_ge _ _)) by done. f_equal.
      apply IH; [apply Z.div_pos; lia|lia|lia].
Qed.

Lemma ndigits_go_mono (f : nat) (n m : Z) :
  0 ≤ n ≤ m → (ndigits_go f n ≤ ndigits_go f m)%nat.
Proof.
  revert n m. induction f as [|f IH]; intros n m Hnm; simpl; [done|].
  destruct (Z.ltb_spec n 10) as [Hlt|Hge].
  - destruct (m <? 10); lia.
  - rewrite (proj2 (Z.ltb_ge m 10)) by lia.
    apply le_n_S, IH. split; [apply Z.div_pos; lia|].
    apply Z.div_le_mono; lia.
Qed.

Lemma of_Z_length (n : Z) :
  0 ≤ n → String.length (Str.of_Z n) = ndigits_go (Z.to_nat (Z.log2 n)) n.
Proof.
  intros Hn. unfold Str.of_Z, Str.digits.
  rewrite (proj2 (Z.ltb_ge n 0)) by done.
  rewrite digits_go_length. simpl. lia.
Qed.

(** [len(str(n))] grows with [n]. *)
Lemma of_Z_length_mono (n m : Z) :
  0 ≤ n ≤ m → Str.len (Str.of_Z n) ≤ Str.len (Str.of_Z m).
Proof.
  intros Hnm. unfold Str.len. rewrite !of_Z_length by lia.
  apply inj_le.
  rewrite (ndigits_go_fuel (Z.to_nat (Z.log2 n)) (Z.to_nat (Z.log2 m)) n);
    [by apply ndigits_go_mono|lia|lia|].
  apply Z2Nat.inj_le; [apply Z.log2_nonneg..|]. apply Z.log2_le_mono. lia.
Qed.

Lemma repeat_length (c : ascii) (n : nat) : String.length (Str.repeat c n) = n.
Proof. induction n as [|n IH]; simpl; [done|]. by rewrite IH. Qed.

(** A number that fits its field is padded to exactly the field. *)
Lemma format_d_fits (width n : Z) :
  Str.len (Str.of_Z n) ≤ width →
  ∃ pad, Str.format_d width n = pad +:+ Str.of_Z n ∧
         pad = Str.repeat " " (String.length pad) ∧
         Str.len (pad +:+ Str.of_Z n) = width.
Proof.
  intros Hfit. exists (Str.repeat " " (Z.to_nat (width - Str.len (Str.of_Z n)))).
  split_and!; [done|by rewrite repeat_length|].
  unfold Str.len in *. rewrite app_length_s, repeat_length. lia.
Qed.

End decimal.

Section lines.

Lemma rev_app_app (a b c : string) :
  String.rev_app a b +:+ c = String.rev_app a (b +:+ c).
Proof.
  revert b. induction a as [|x a IH]; intros b; simpl; [done|].
  by rewrite IH.
Qed.

Lemma split_go_nonempty (sep : string) (skip : nat) (acc s : string) :
  Str.split_go sep skip acc s ≠ [].
Proof.
  revert skip acc. induction s as [|d s IH]; intros skip acc; simpl; [done|].
  destruct skip; [|apply IH].
  match goal with |- context [if ?b then _ else _] => destruct b end;
    [done|apply IH].
Qed.

Lemma join_cons (sep x : string) (l : list string) :
  l ≠ [] → Str.join sep (x :: l) = x +:+ sep +:+ Str.join sep l.
Proof. by destruct l. Qed.

(** Splitting at a character and joining with it gives the text back. *)
Lemma join_split_go (c : ascii) (acc s : string) :
  Str.join (String c "") (Str.split_go (String c "") 0 acc s)
  = String.rev acc +:+ s.
Proof.
  revert acc. induction s as [|d s IH]; intros acc.
  - simpl. by rewrite app_empty_r.
  - simpl. destruct (ascii_dec c d) as [->|Hne].
    + assert (Str.startswith "" s = true) as -> by by destruct s.
      rewrite join_cons by apply split_go_nonempty.
      rewrite IH. reflexivity.
    + rewrite IH. unfold String.rev. simpl. rewrite !rev_app_app. reflexivity.
Qed.

Lemma join_split_LF (s : string) : Str.join LF (Str.split LF s) = s.
Proof. unfold Str.split, LF. by rewrite join_split_go. Qed.

Lemma has_char_rev_app (c : ascii) (a b : string) :
  has_char c (String.rev_app a b) = has_char c a || has_char c b.
Proof.
  revert b. induction a as [|x a IH]; intros b; simpl; [done|].
  rewrite IH. simpl. by destruct (bool_decide (c = x)), (has_char c a), (has_char c b).
Qed.

(** No piece of a split at a character holds that character. *)
Lemma split_go_no_sep (c : ascii) (acc s : string) :
  has_char c acc = false →
  Forall (λ piece, has_char c piece = false)
    (Str.split_go (String c "") 0 acc s).
Proof.
  revert acc. induction s as [|d s IH]; intros acc Hacc; simpl.
  - constructor; [|constructor]. unfold String.rev.
    by rewrite has_char_rev_app, Hacc.
  - destruct (ascii_dec c d) as [->|Hne].
    + assert (Str.startswith "" s = true) as -> by by destruct s.
      constructor; [|by apply IH]. unfold String.rev.
      by rewrite has_char_rev_app, Hacc.
    + apply IH. simpl. by rewrite bool_decide_false, Hacc.
Qed.

End lines.

Example add_line_numbers_3_lines :
  _add_line_numbers ("import os" +:+ CR +:+ LF +:+ "x = 1" +:+ CR +:+ "print(x)")
  = "   1│ import os" +:+ LF +:+ "   2│ x = 1" +:+ LF +:+ "   3│ print(x)".
Proof. vm_compute. reflexivity. Qed.

(** C7.  [_add_line_numbers] numbers the lines of the normalized content
    (the pieces between its line feeds) from 1: line [i] becomes the decimal
    [i], right-aligned by spaces in a field of exactly
    [max(4, digits of the line count)] characters, then the separator and a
    space, then the line.  The lines are joined by line feeds again; up to
    9999 lines the field is 4 wide. *)
Theorem add_line_numbers_format (content : string) :
  let lines := Str.split LF (_normalize_line_endings content) in
  let width := Z.max 4 (Str.len (Str.of_Z (Z.of_nat (length lines)))) in
  Str.join LF lines = _normalize_line_endings content ∧
  Forall (λ line, has_char "010" line = false) lines ∧
  ∃ numbered,
    _add_line_numbers content = Str.join LF numbered ∧
    length numbered = length lines ∧
    (∀ (i : nat) line, lines !! i = Some line →
       ∃ pad,
         numbered !! i
           = Some (pad +:+ Str.of_Z (Z.of_nat i + 1) +:+ "│ " +:+ line) ∧
         pad = Str.repeat " " (String.length pad) ∧
         Str.len (pad +:+ Str.of_Z (Z.of_nat i + 1)) = width) ∧
    (Z.of_nat (length lines) < 10000 → width = 4).
Proof.
  intros lines width.
  split; [apply join_split_LF|].
  split; [by apply split_go_no_sep|].
  exists (imap (number_line width) lines). split_and!.
  - unfold _add_line_numbers. fold lines.
    by rewrite (Z.max_comm (Str.len _) 4).
  - apply length_imap.
  - intros i line Hi. rewrite list_lookup_imap, Hi. simpl.
    assert (Str.len (Str.of_Z (Z.of_nat i + 1)) ≤ width) as Hfit.
    { apply lookup_lt_Some in Hi. etrans; [|apply Z.le_max_r].
      apply of_Z_length_mono. lia. }
    destruct (format_d_fits width _ Hfit) as (pad & Hf & Hp & Hl).
    exists pad. unfold number_line. rewrite Hf. by rewrite !app_assoc_s.
  - intros Hlt. unfold width.
    pose proof (of_Z_length_mono (Z.of_nat (length lines)) 9999 ltac:(lia)) as H.
    change (Str.len (Str.of_Z 9999)) with 4 in H. lia.
Qed.

(** ** expand_paths *)

Section path_strings.
Import PurePath.

Lemma of_str_absolute (s : string) :
  Str.startswith "/" s = true → is_absolute (of_str s) = true.
Proof.
  intros H. unfold is_absolute, of_str, parse_root. simpl. rewrite H.
  by destruct (_ && _).
Qed.

Lemma str_starts_with_slash (p : Path) :
  is_absolute p = true → Str.startswith "/" (str p) = true.
Proof.
  intros H. rewrite str_absolute by done. unfold is_absolute in H.
  destruct (root p); [done| |]; simpl anchor_str.
  - apply startswith_app.
  - change "//" with ("/" +:+ "/"). rewrite app_assoc_s. apply startswith_app.
Qed.

Lemma joinpath_absolute (p q : Path) :
  is_absolute p = true → is_absolute (joinpath p q) = true.
Proof. intros H. unfold joinpath. by destruct (is_absolute q) eqn:Hq. Qed.

Lemma os_path_join_slash (a b : string) :
  Str.startswith "/" a = true → Str.startswith "/" (os_path_join a b) = true.
Proof.
  intros [a' ->]%startswith_inv. unfold os_path_join.
  destruct (Str.startswith "/" b) eqn:Hb; [done|].
  destruct (_ || _); rewrite app_assoc_s; apply startswith_app.
Qed.

End path_strings.

Lemma dir_tree_nested_ind (P : dir_tree → Prop) :
  (∀ dirs files, Forall (λ entry, P entry.2) dirs → P (DirNode dirs files)) →
  ∀ t, P t.
Proof.
  intros H. fix IH 1. intros [dirs files]. apply H.
  induction dirs as [|[d sub] dirs IHdirs]; constructor; [apply IH|apply IHdirs].
Qed.

Section expansion.
Context (E : Env).
Import PurePath.

(** *** The accumulators *)

Lemma grows_refl P st : grows P st st.
Proof. unfold grows. split_and!; auto. Qed.

Lemma grows_trans P st1 st2 st3 :
  grows P st1 st2 → grows P st2 st3 → grows P st1 st3.
Proof.
  intros (Hc1 & Hs1 & Hf1) (Hc2 & Hs2 & Hf2). split_and!; [auto..|].
  intros y Hy. destruct (Hf2 y Hy) as [H|H]; [by apply Hf1|by right].
Qed.

Lemma grows_weaken (P Q : string → Prop) st st' :
  (∀ y, P y → Q y) → grows P st st' → grows Q st st'.
Proof.
  intros HPQ (Hc & Hs & Hf). split_and!; [done..|].
  intros y Hy. destruct (Hf y Hy) as [H|H]; [by left|right; by apply HPQ].
Qed.

Lemma add_file_grows x st : grows (λ y, y = x) st (add_file x st).
Proof.
  unfold add_file. case_bool_decide as Hx; [apply grows_refl|].
  unfold grows, consistent. simpl. split_and!.
  - intros [Hnd Hseen]. split.
    + apply NoDup_app. split_and!; [done| |apply NoDup_singleton].
      intros y Hy ->%list_elem_of_singleton. by apply Hx, Hseen.
    + intros y. rewrite elem_of_union, elem_of_singleton, elem_of_app,
        list_elem_of_singleton, Hseen. tauto.
  - intros y Hy. apply elem_of_app. by left.
  - intros y [Hy| ->%list_elem_of_singleton]%elem_of_app; [by left|by right].
Qed.

Lemma add_file_elem x st :
  consistent st → x ∈ expanded_files (add_file x st).
Proof.
  intros [_ Hseen]. unfold add_file. case_bool_decide as Hx; [by apply Hseen|].
  simpl. apply elem_of_app. right. by apply list_elem_of_singleton.
Qed.

Lemma fold_left_grows {A} P (f : expansion → A → expansion) (l : list A) st :
  (∀ a st, a ∈ l → grows P st (f st a)) → grows P st (fold_left f l st).
Proof.
  revert st. induction l as [|a l IH]; intros st H; simpl; [apply grows_refl|].
  eapply grows_trans; [apply H; by left|].
  apply IH. intros b st' Hb. apply H. by right.
Qed.

Lemma consistent_empty : consistent {| expanded_files := []; seen := ∅ |}.
Proof.
  split; [constructor|]. intros x. simpl.
  split; intros H; [by apply elem_of_empty in H|by apply elem_of_nil in H].
Qed.

Lemma add_all_grows l st : grows (λ y, y ∈ l) st (add_all l st).
Proof.
  apply fold_left_grows. intros a st' Ha.
  eapply grows_weaken; [|apply add_file_grows]. by intros y ->.
Qed.

Lemma add_all_app l1 l2 st : add_all (l1 ++ l2) st = add_all l2 (add_all l1 st).
Proof. apply fold_left_app. Qed.

(** The accumulators after a list of paths was offered: no repetition, and
    what was there before together with what was offered. *)
Lemma add_all_spec l st :
  consistent st →
  consistent (add_all l st) ∧
  ∀ y, y ∈ expanded_files (add_all l st) ↔ y ∈ expanded_files st ∨ y ∈ l.
Proof.
  intros Hst. destruct (add_all_grows l st) as (Hc & Hsub & Hfrom).
  split; [by apply Hc|]. intros y. split; [apply Hfrom|].
  intros [Hy|Hy]; [by apply Hsub|].
  revert st Hst Hc Hsub Hfrom. induction l as [|a l IH]; intros st Hst _ _ _;
    [by apply elem_of_nil in Hy|].
  change (add_all (a :: l) st) with (add_all l (add_file a st)).
  destruct (add_file_grows a st) as (Hc1 & _ & _).
  destruct (add_all_grows l (add_file a st)) as (Hc2 & Hsub2 & Hfrom2).
  apply elem_of_cons in Hy as [->|Hy].
  - apply Hsub2. by apply add_file_elem.
  - apply IH; auto.
Qed.

(** *** The walk of a directory *)

Lemma visit_files_offered extensions root files st :
  fold_left (λ st file, visit_file E extensions root file st) files st
  = add_all (offered E extensions root files) st.
Proof.
  revert st. induction files as [|file files IH]; intros st; [done|].
  simpl. rewrite IH. unfold visit_file.
  destruct (Str.startswith "." file); [done|].
  by destruct (extension_matches _ _ _).
Qed.

Lemma elem_of_offered extensions root files y :
  y ∈ offered E extensions root files ↔
  ∃ file, file ∈ files ∧ Str.startswith "." file = false ∧
          extension_matches E extensions (joinpath (of_str root) (of_str file))
            = true ∧
          y = str (joinpath (of_str root) (of_str file)).
Proof.
  unfold offered. rewrite list_elem_of_omap. split.
  - intros (file & Hin & H). exists file.
    destruct (Str.startswith "." file); [done|].
    destruct (extension_matches _ _ _); [|done].
    injection H as <-. by split_and!.
  - intros (file & Hin & Hdot & Hext & ->). exists file.
    by rewrite Hdot, Hext.
Qed.

Lemma keep_dirs_Ok root ds ks :
  keep_dirs E root ds = Ok ks ↔
  Forall2 (λ d k, keep_dir E root d = Ok k) ds ks.
Proof.
  revert ks. induction ds as [|d ds IH]; intros ks; simpl.
  - split; [intros [= <-]; constructor|by intros ->%Forall2_nil_inv_l].
  - split.
    + destruct (keep_dir E root d) as [k|] eqn:Hk; simpl; [|done].
      destruct (keep_dirs E root ds) as [ks'|]; simpl; [|done].
      intros [= <-]. constructor; [done|]. by apply IH.
    + intros (k & ks' & Hk & Hks & ->)%Forall2_cons_inv_l.
      rewrite Hk. simpl. apply IH in Hks. by rewrite Hks.
Qed.

Lemma keep_dir_true root d :
  keep_dir E root d = Ok true ↔
  Str.startswith "." d = false ∧ (d ∉ EXCLUDED_DIRS E) ∧
  is_mcp_directory E (joinpath (of_str root) (of_str d)) = Ok false.
Proof.
  unfold keep_dir. destruct (Str.startswith "." d).
  { split; [done|]. by intros [? _]. }
  case_bool_decide as Hex.
  { split; [done|]. by intros (_ & ? & _). }
  destruct (is_mcp_directory E _) as [[]|]; simpl;
    (split; [try done; by intros _|by intros (_ & _ & ?)]).
Qed.

(** The walk with its accumulators is the walk that lists what it offers,
    followed by the offering. *)
Lemma descend_files (W : string → dir_tree → expansion → result expansion)
    (F : string → dir_tree → result (list string))
    (dirs : list (string * dir_tree)) :
  Forall (λ entry, ∀ st, W entry.1 entry.2 st
                         = (l ← F entry.1 entry.2; Ok (add_all l st))) dirs →
  ∀ kept acc st,
    descend W dirs kept (add_all acc st)
    = (l ← descend (λ d sub acc, l ← F d sub; Ok (acc ++ l)) dirs kept acc;
       Ok (add_all l st)).
Proof.
  induction 1 as [|[d sub] dirs HW _ IH]; intros kept acc st; [done|].
  destruct kept as [|[] kept]; simpl; [done| |apply IH].
  simpl in HW. rewrite HW. destruct (F d sub) as [l|]; simpl; [|done].
  rewrite <- add_all_app. apply IH.
Qed.

Lemma walk_loop_files extensions t :
  ∀ root st,
    walk_loop E extensions root t st
    = (l ← walk_files E extensions root t; Ok (add_all l st)).
Proof.
  induction t as [dirs files IH] using dir_tree_nested_ind. intros root st.
  simpl. destruct (keep_dirs E root (map fst dirs)) as [kept|]; simpl; [|done].
  rewrite visit_files_offered.
  apply (descend_files
           (λ d sub st, walk_loop E extensions (os_path_join root d) sub st)
           (λ d sub, walk_files E extensions (os_path_join root d) sub)).
  eapply Forall_impl; [exact IH|]. intros [d sub] H st'. apply H.
Qed.

(** What a walk offers is what [found_in] describes. *)
Lemma descend_found extensions root (dirs : list (string * dir_tree)) :
  Forall (λ entry, ∀ root l,
            walk_files E extensions root entry.2 = Ok l →
            ∀ y, y ∈ l ↔ found_in E extensions root entry.2 y) dirs →
  ∀ kept acc l,
    Forall2 (λ entry k, keep_dir E root entry.1 = Ok k) dirs kept →
    descend (λ d sub acc,
               l ← walk_files E extensions (os_path_join root d) sub;
               Ok (acc ++ l)) dirs kept acc = Ok l →
    ∀ y, y ∈ l ↔
         y ∈ acc ∨
         ∃ d sub, (d, sub) ∈ dirs ∧ keep_dir E root d = Ok true ∧
                  found_in E extensions (os_path_join root d) sub y.
Proof.
  induction 1 as [|[d sub] dirs Hsub _ IH]; intros kept acc l Hkept Hl y.
  - apply Forall2_nil_inv_l in Hkept as ->. injection Hl as <-.
    split; [by left|]. intros [H|(d & sub & H & _)]; [done|].
    by apply elem_of_nil in H.
  - apply Forall2_cons_inv_l in Hkept as (k & kept' & Hk & Hkept & ->).
    simpl in Hk, Hsub, Hl. destruct k.
    + destruct (walk_files E extensions (os_path_join root d) sub) as [l1|]
        eqn:Hw; simpl in Hl; [|done].
      rewrite (IH _ _ _ Hkept Hl y), elem_of_app, (Hsub _ _ Hw y). split.
      * intros [[H|H]|(d' & sub' & Hin & H)]; [by left|right..].
        -- exists d, sub. split_and!; [by left|done..].
        -- exists d', sub'. split; [by right|done].
      * intros [H|(d' & sub' & [[= -> ->]|Hin]%elem_of_cons & Hk' & H)];
          [by left; left|by left; right|].
        right. exists d', sub'. by split.
    + rewrite (IH _ _ _ Hkept Hl y). split.
      * intros [H|(d' & sub' & Hin & H)]; [by left|right].
        exists d', sub'. split; [by right|done].
      * intros [H|(d' & sub' & [[= -> ->]|Hin]%elem_of_cons & Hk' & H)];
          [by left|congruence|].
        right. exists d', sub'. by split.
Qed.

Lemma walk_files_found extensions t :
  ∀ root l,
    walk_files E extensions root t = Ok l →
    ∀ y, y ∈ l ↔ found_in E extensions root t y.
Proof.
  induction t as [dirs files IH] using dir_tree_nested_ind. intros root l Hl y.
  simpl in Hl.
  destruct (keep_dirs E root (map fst dirs)) as [kept|] eqn:Hkept;
    simpl in Hl; [|done].
  apply keep_dirs_Ok, Forall2_fmap_l in Hkept.
  rewrite (descend_found extensions root dirs IH _ _ _ Hkept Hl y),
    elem_of_offered.
  split.
  - intros [(file & Hin & Hdot & Hext & ->)|(d & sub & Hin & Hk & H)].
    + by apply found_here.
    + apply keep_dir_true in Hk as (Hdot & Hex & Hmcp).
      by eapply found_deeper.
  - intros Hfound.
    inversion Hfound
      as [? ? ? file Hin Hdot Hext|? ? ? d sub ? Hin Hdot Hex Hmcp Hsub];
      subst.
    + left. by exists file.
    + right. exists d, sub. split_and!; [done| |done].
      by apply keep_dir_true.
Qed.

(** Every path a walk from an absolute directory finds is absolute. *)
Lemma found_in_absolute extensions root t y :
  found_in E extensions root t y →
  Str.startswith "/" root = true → Str.startswith "/" y = true.
Proof.
  induction 1 as [root dirs files file _ _ _|root dirs files d sub y _ _ _ _ _ IH];
    intros Hroot.
  - apply str_starts_with_slash, joinpath_absolute. by apply of_str_absolute.
  - apply IH. by apply os_path_join_slash.
Qed.

(** *** One entry of the list *)

Lemma expand_one_files extensions path st :
  expand_one E extensions path st
  = (l ← entry_files E extensions path; Ok (add_all l st)).
Proof.
  unfold expand_one, entry_files.
  destruct (resolve_and_validate_path E path) as [path_obj|e];
    [|by destruct (is_ValueError_or_PermissionError e)].
  destruct (path_exists E path_obj) as [[]|]; simpl; [|done..].
  destruct (is_dir E path_obj) as [[]|]; simpl; [| |done].
  - destruct (directory_guards E path_obj) as [[]|]; simpl; [done| |done].
    destruct (is_file E path_obj) as [[]|]; simpl; [done| |done].
    apply walk_loop_files.
  - by destruct (is_file E path_obj) as [[]|].
Qed.

(** The three ways an entry contributes: nothing, itself, or what the
    walk of it finds. *)
Lemma entry_files_cases extensions path l :
  entry_files E extensions path = Ok l →
  l = [] ∨
  (∃ path_obj,
     resolve_and_validate_path E path = Ok path_obj ∧
     path_exists E path_obj = Ok true ∧ is_file E path_obj = Ok true ∧
     l = [str path_obj]) ∨
  (∃ path_obj,
     resolve_and_validate_path E path = Ok path_obj ∧
     path_exists E path_obj = Ok true ∧ is_dir E path_obj = Ok true ∧
     directory_guards E path_obj = Ok false ∧ is_file E path_obj = Ok false ∧
     walk_files E extensions (str path_obj) (walk E path_obj) = Ok l).
Proof.
  unfold entry_files.
  destruct (resolve_and_validate_path E path) as [path_obj|e] eqn:Hval.
  2:{ destruct (is_ValueError_or_PermissionError e); [|done].
      intros [= <-]. by left. }
  destruct (path_exists E path_obj) as [[]|] eqn:Hex; simpl; [| |done].
  2:{ intros [= <-]. by left. }
  destruct (is_dir E path_obj) as [[]|] eqn:Hdir; simpl; [| |done].
  - destruct (directory_guards E path_obj) as [[]|] eqn:Hguards; simpl;
      [| |done].
    { intros [= <-]. by left. }
    destruct (is_file E path_obj) as [[]|] eqn:Hfile; simpl; [| |done].
    + intros [= <-]. right; left. by exists path_obj.
    + intros Hw. right; right. by exists path_obj.
  - destruct (is_file E path_obj) as [[]|] eqn:Hfile; simpl; [| |done].
    + intros [= <-]. right; left. by exists path_obj.
    + intros [= <-]. by left.
Qed.

Lemma entry_files_from extensions path l y :
  entry_files E extensions path = Ok l → y ∈ l →
  listed E [path] y ∨ found_below E [path] extensions y.
Proof.
  intros [->|[(path_obj & Hval & Hex & Hfile & ->)
             |(path_obj & Hval & Hex & Hdir & Hguards & Hfile & Hw)]]%entry_files_cases Hy.
  - by apply elem_of_nil in Hy.
  - apply list_elem_of_singleton in Hy as ->. left.
    exists path, path_obj. split_and!; [by left|done..].
  - right. exists path, path_obj. split_and!; [by left|done..|].
    by apply (walk_files_found _ _ _ _ Hw).
Qed.

(** A listed regular file is offered as it is: neither its name nor its
    extension is looked at. *)
Lemma entry_files_listed_file extensions path path_obj :
  resolve_and_validate_path E path = Ok path_obj →
  path_exists E path_obj = Ok true → is_file E path_obj = Ok true →
  is_dir E path_obj = Ok false →
  entry_files E extensions path = Ok [str path_obj].
Proof.
  intros Hval Hex Hfile Hdir. unfold entry_files.
  by rewrite Hval, Hex, Hdir, Hfile.
Qed.

(** A directory that passes the guards is walked. *)
Lemma entry_files_directory extensions path path_obj :
  resolve_and_validate_path E path = Ok path_obj →
  path_exists E path_obj = Ok true → is_dir E path_obj = Ok true →
  directory_guards E path_obj = Ok false → is_file E path_obj = Ok false →
  entry_files E extensions path
  = walk_files E extensions (str path_obj) (walk E path_obj).
Proof.
  intros Hval Hex Hdir Hguards Hfile. unfold entry_files.
  by rewrite Hval, Hex, Hdir, Hguards, Hfile.
Qed.

(** *** The loop over the list *)

Lemma expand_loop_files extensions paths st st' :
  expand_loop E extensions paths st = Ok st' →
  ∃ ls, Forall2 (λ path l, entry_files E extensions path = Ok l) paths ls ∧
        st' = add_all (mjoin ls) st.
Proof.
  revert st. induction paths as [|path rest IH]; intros st; simpl.
  - intros [= <-]. exists []. split; [constructor|done].
  - rewrite expand_one_files.
    destruct (entry_files E extensions path) as [l|] eqn:Hl; simpl; [|done].
    intros (ls & Hls & ->)%IH. exists (l :: ls). split; [by constructor|].
    simpl. by rewrite add_all_app.
Qed.

(** An entry that offers nothing can be dropped. *)
Lemma expand_loop_drop extensions pre path post st :
  entry_files E extensions path = Ok [] →
  expand_loop E extensions (pre ++ path :: post) st
  = expand_loop E extensions (pre ++ post) st.
Proof.
  intros Hskip. revert st. induction pre as [|p pre IH]; intros st; simpl.
  - by rewrite expand_one_files, Hskip.
  - destruct (expand_one E extensions p st); simpl; [apply IH|done].
Qed.

(** What [expand_paths] returns: the sorted list, without repetition, of
    what the entries offer. *)
Lemma expand_paths_elements paths extensions l :
  expand_paths E paths extensions = Ok l →
  StronglySorted String.le l ∧ Sorted String.le l ∧ NoDup l ∧
  Forall (λ path, returns (entry_files E (default (CODE_EXTENSIONS E) extensions)
                             path)) paths ∧
  ∀ y, y ∈ l ↔
       ∃ path lp, path ∈ paths ∧
                  entry_files E (default (CODE_EXTENSIONS E) extensions) path
                    = Ok lp ∧
                  y ∈ lp.
Proof.
  unfold expand_paths.
  destruct (expand_loop E _ paths _) as [st|] eqn:Hloop; simpl; [|done].
  intros [= <-]. apply expand_loop_files in Hloop as (ls & Hls & ->).
  destruct (add_all_spec (mjoin ls) _ consistent_empty) as [[Hnd _] Hel].
  pose proof (merge_sort_Permutation String.le
                (expanded_files (add_all (mjoin ls)
                                   {| expanded_files := []; seen := ∅ |})))
    as Hperm.
  split_and!.
  - apply StronglySorted_merge_sort; apply _.
  - apply Sorted_merge_sort; apply _.
  - by rewrite Hperm.
  - clear Hel Hnd Hperm. induction Hls as [|path lp paths ls Hlp _ IH];
      constructor; [by rewrite Hlp|done].
  - intros y. rewrite Hperm, Hel. simpl. split.
    + intros [Hnil|Hy]; [by apply elem_of_nil in Hnil|].
      apply list_elem_of_join in Hy as (lp & Hy & Hlp).
      apply list_elem_of_lookup in Hlp as [i Hi].
      destruct (Forall2_lookup_r _ _ _ _ _ Hls Hi) as (path & Hpath & Hfiles).
      exists path, lp. split_and!; [|done..].
      by eapply list_elem_of_lookup_2.
    + intros (path & lp & Hpath & Hfiles & Hy). right.
      apply list_elem_of_lookup in Hpath as [i Hi].
      destruct (Forall2_lookup_l _ _ _ _ _ Hls Hi) as (lp' & Hlp' & Hfiles').
      assert (lp' = lp) as -> by congruence.
      apply list_elem_of_join. exists lp. split; [done|].
      by eapply list_elem_of_lookup_2.
Qed.

End expansion.

Section expansion_results.
Context (E : Env).
Import PurePath.

Lemma resolve_and_validate_path_absolute path path_obj :
  is_absolute (SECURITY_ROOT E) = true →
  resolve_and_validate_path E path = Ok path_obj →
  Str.startswith "/" (str path_obj) = true.
Proof.
  intros Hroot Hval.
  pose proof (resolve_and_validate_path_cases E path) as H. simpl in H.
  rewrite Hval in H. destruct H as (_ & _ & Hd).
  apply str_starts_with_slash. by eapply descendant_of_absolute.
Qed.

(** The validator raises nothing but [ValueError] and [PermissionError]
    as long as [Path.resolve()] does not raise. *)
Lemma resolve_and_validate_path_raises path e :
  (∀ q, returns (resolve E q)) →
  resolve_and_validate_path E path = Raise e →
  is_ValueError_or_PermissionError e = true.
Proof.
  intros Hres Hval.
  pose proof (resolve_and_validate_path_cases E path) as H. simpl in H.
  rewrite Hval in H. destruct H as [[_ ->]|[[_ Hr]|(_ & r & _ & _ & ->)]]; [done| |done].
  specialize (Hres (of_str (translate_path_for_environment E path))).
  by rewrite Hr in Hres.
Qed.

Lemma is_home_directory_root_returns path :
  (∀ q, returns (resolve E q)) → returns (path_home E) →
  returns (is_home_directory_root E path).
Proof.
  intros Hres Hhome. unfold is_home_directory_root, get_user_home_directory.
  assert (∀ (r : result Path) (k : Path → result bool),
            returns r → (∀ p, returns (k p)) → returns (r ≫= k)) as Hbind.
  { intros [p|e] k Hr Hk; [apply Hk|done]. }
  apply Hbind.
  - destruct (truthy (USER_HOME E)); [apply Hres|].
    destruct (container_workspace_exists E), (truthy (WORKSPACE_ROOT E));
      by try apply Hres.
  - intros user_home. unfold catch. by destruct (_ ≫= _).
Qed.

Section stat_returns.
Hypothesis path_exists_returns : ∀ q, returns (path_exists E q).
Hypothesis is_dir_returns : ∀ q, returns (is_dir E q).
Hypothesis is_file_returns : ∀ q, returns (is_file E q).

Lemma mcp_signature_loop_returns path sigs matches :
  returns (mcp_signature_loop E path sigs matches).
Proof.
  revert matches. induction sigs as [|sig_file rest IH]; intros matches; [done|].
  simpl. pose proof (path_exists_returns (joinpath path (of_str sig_file))) as H.
  destruct (path_exists E _) as [[]|]; simpl; [|apply IH|done].
  destruct (3 <=? matches + 1); [done|apply IH].
Qed.

Lemma is_mcp_directory_returns path : returns (is_mcp_directory E path).
Proof.
  unfold is_mcp_directory. pose proof (is_dir_returns path) as H.
  destruct (is_dir E path) as [[]|]; simpl; [|done..].
  apply mcp_signature_loop_returns.
Qed.

Lemma keep_dirs_returns root ds : returns (keep_dirs E root ds).
Proof.
  induction ds as [|d ds IH]; [done|]. simpl.
  assert (returns (keep_dir E root d)) as Hk.
  { unfold keep_dir. destruct (Str.startswith "." d); [done|].
    case_bool_decide as Hex; [done|].
    pose proof (is_mcp_directory_returns (joinpath (of_str root) (of_str d)))
      as Hmcp.
    by destruct (is_mcp_directory E _). }
  destruct (keep_dir E root d); simpl; [|done].
  by destruct (keep_dirs E root ds).
Qed.

Lemma walk_files_returns extensions t :
  ∀ root, returns (walk_files E extensions root t).
Proof.
  induction t as [dirs files IH] using dir_tree_nested_ind. intros root. simpl.
  pose proof (keep_dirs_returns root (map fst dirs)) as Hk.
  destruct (keep_dirs E root (map fst dirs)) as [kept|]; simpl; [|done].
  generalize (offered E extensions root files). clear Hk. revert kept.
  induction IH as [|[d sub] dirs Hsub _ IHdirs]; intros kept acc; [done|].
  destruct kept as [|[] kept]; simpl; [done| |apply IHdirs].
  specialize (Hsub (os_path_join root d)). simpl in Hsub.
  destruct (walk_files E extensions (os_path_join root d) sub); simpl; [|done].
  apply IHdirs.
Qed.

Lemma entry_files_returns extensions path :
  (∀ q, returns (resolve E q)) → returns (path_home E) →
  returns (entry_files E extensions path).
Proof.
  intros Hres Hhome. unfold entry_files.
  destruct (resolve_and_validate_path E path) as [path_obj|e] eqn:Hval.
  2:{ by rewrite (resolve_and_validate_path_raises _ _ Hres Hval). }
  pose proof (path_exists_returns path_obj) as Hex.
  pose proof (is_dir_returns path_obj) as Hdir.
  pose proof (is_file_returns path_obj) as Hfile.
  destruct (path_exists E path_obj) as [[]|]; simpl; [|done..].
  assert (returns (directory_guards E path_obj)) as Hguards.
  { unfold directory_guards.
    pose proof (Hres (SECURITY_ROOT E)) as H1. pose proof (Hres path_obj) as H2.
    destruct (resolve E (SECURITY_ROOT E)); [simpl|done].
    destruct (resolve E path_obj); [simpl|done].
    case_bool_decide; [done|].
    pose proof (is_home_directory_root_returns path_obj Hres Hhome) as H3.
    destruct (is_home_directory_root E path_obj) as [[]|]; simpl; [done| |done].
    apply is_mcp_directory_returns. }
  destruct (is_dir E path_obj) as [[]|]; simpl; [| |done].
  - destruct (directory_guards E path_obj) as [[]|]; simpl; [done| |done].
    destruct (is_file E path_obj) as [[]|]; simpl; [done| |done].
    apply walk_files_returns.
  - by destruct (is_file E path_obj) as [[]|].
Qed.

Lemma expand_loop_returns extensions paths st :
  (∀ q, returns (resolve E q)) → returns (path_home E) →
  returns (expand_loop E extensions paths st).
Proof.
  intros Hres Hhome. revert st.
  induction paths as [|path rest IH]; intros st; simpl; [done|].
  rewrite expand_one_files.
  pose proof (entry_files_returns extensions path Hres Hhome) as H.
  destruct (entry_files E extensions path); [apply IH|done].
Qed.

Lemma expand_paths_returns paths extensions :
  (∀ q, returns (resolve E q)) → returns (path_home E) →
  returns (expand_paths E paths extensions).
Proof.
  intros Hres Hhome. unfold expand_paths.
  pose proof (expand_loop_returns (default (CODE_EXTENSIONS E) extensions) paths
                {| expanded_files := []; seen := ∅ |} Hres Hhome) as H.
  by destruct (expand_loop E _ paths _).
Qed.

End stat_returns.

End expansion_results.

(** C6.  The list [expand_paths] returns is sorted in the order of [str],
    has no duplicates and holds absolute paths only.  A listed path of a
    regular file occurs in it exactly once, in its canonical form, also when
    a listed directory contains the file.  [expand_paths] returns whenever
    [Path.resolve()], [Path.home()] and the stat calls [exists()],
    [is_dir()] and [is_file()] do; an exception of one of them that is not
    caught in between leaves [expand_paths]. *)
Theorem expand_paths_sorted_nodup (E : Env) (paths : list string)
    (extensions : option (gset string)) :
  PurePath.is_absolute (SECURITY_ROOT E) = true →
  ((∀ q, returns (resolve E q)) → returns (path_home E) →
   (∀ q, returns (path_exists E q)) → (∀ q, returns (is_dir E q)) →
   (∀ q, returns (is_file E q)) →
   returns (expand_paths E paths extensions)) ∧
  ∀ l, expand_paths E paths extensions = Ok l →
    StronglySorted String.le l ∧
    NoDup l ∧
    (∀ y, y ∈ l → PurePath.is_absolute (PurePath.of_str y) = true) ∧
    (∀ file path_obj,
       file ∈ paths → resolve_and_validate_path E file = Ok path_obj →
       path_exists E path_obj = Ok true → is_file E path_obj = Ok true →
       is_dir E path_obj = Ok false →
       ∃ l1 l2, l = l1 ++ (PurePath.str path_obj :: l2) ∧
                (PurePath.str path_obj ∉ l1) ∧ (PurePath.str path_obj ∉ l2)).
Proof.
  intros Hroot. split.
  { intros Hres Hhome Hex Hdir Hfile. by apply expand_paths_returns. }
  intros l (Hsorted & _ & Hnd & _ & Hel)%expand_paths_elements.
  split_and!; [done..| |].
  - intros y (path & lp & _ & Hlp & Hy)%Hel. apply of_str_absolute.
    destruct (entry_files_from E _ _ _ _ Hlp Hy)
      as [(p & q & _ & Hval & _ & _ & ->)|(p & q & _ & Hval & _ & _ & _ & _ & Hf)].
    + by eapply resolve_and_validate_path_absolute.
    + apply (found_in_absolute E _ _ _ _ Hf).
      by eapply resolve_and_validate_path_absolute.
  - intros file path_obj Hin Hval Hex Hfile Hdir.
    assert (PurePath.str path_obj ∈ l) as Hy.
    { apply Hel. exists file, [PurePath.str path_obj]. split_and!; [done| |by left].
      by apply entry_files_listed_file. }
    apply list_elem_of_split in Hy as (l1 & l2 & ->).
    exists l1, l2. split; [done|].
    apply NoDup_app in Hnd as (_ & Hl1 & Hl2%NoDup_cons).
    split; [|by destruct Hl2].
    intros Hin1. apply (Hl1 _ Hin1). by left.
Qed.

Lemma expand_paths_sorted_nodup_witness :
  expand_paths Demo.direct ["/proj/src"; "/proj/src/m.py"] None
    = Ok ["/proj/src/m.py"; "/proj/src/pkg/n.py"] ∧
  NoDup ["/proj/src/m.py"; "/proj/src/pkg/n.py"].
Proof.
  assert (expand_paths Demo.direct ["/proj/src"; "/proj/src/m.py"] None
          = Ok ["/proj/src/m.py"; "/proj/src/pkg/n.py"]) as H
    by (vm_compute; reflexivity).
  split; [exact H|].
  exact (proj1 (proj2 (proj2 (expand_paths_sorted_nodup Demo.direct
                                ["/proj/src"; "/proj/src/m.py"] None eq_refl) _ H))).
Defined.

(** [expand_paths] raises when a stat call does: a name of 300 characters
    passes the validator, and [exists()] raises the [OSError] of the stat,
    which nothing catches. *)
Example expand_paths_raises_on_long_name :
  expand_paths Demo.direct ["/proj/" +:+ Str.repeat "a" 300] None
  = Raise (OSError ("[Errno 36] File name too long: '/proj/" +:+
                    Str.repeat "a" 300 +:+ "'")).
Proof. vm_compute. reflexivity. Qed.

(** C10.  A listed path that passes validation and is an existing regular
    file is in the result whatever its name and extension; the filters on
    hidden names and on extensions bear on the files found by walking a
    listed directory only: every path of the result was either listed
    itself or found by the walk of a listed directory, in a directory the
    walk reaches, under a name without leading dot and with an extension of
    the filter set. *)
Theorem expand_paths_listed_file_unfiltered (E : Env) (paths : list string)
    (extensions : option (gset string)) (path : string) (path_obj : Path)
    (l : list string) :
  path ∈ paths →
  resolve_and_validate_path E path = Ok path_obj →
  path_exists E path_obj = Ok true → is_file E path_obj = Ok true →
  is_dir E path_obj = Ok false →
  expand_paths E paths extensions = Ok l →
  PurePath.str path_obj ∈ l ∧
  ∀ y, y ∈ l →
    listed E paths y ∨
    found_below E paths (default (CODE_EXTENSIONS E) extensions) y.
Proof.
  intros Hin Hval Hex Hfile Hdir (_ & _ & _ & _ & Hel)%expand_paths_elements.
  split.
  - apply Hel. exists path, [PurePath.str path_obj]. split_and!; [done| |by left].
    by apply entry_files_listed_file.
  - intros y (p & lp & Hp & Hlp & Hy)%Hel.
    destruct (entry_files_from E _ _ _ _ Hlp Hy)
      as [(p' & q & ->%list_elem_of_singleton & H)
         |(p' & q & ->%list_elem_of_singleton & H)]; [left|right];
      by exists p, q.
Qed.

Lemma expand_paths_listed_file_unfiltered_witness :
  "/proj/.env.py"
  ∈ ["/proj/.env.py"; "/proj/notes.xyz"; "/proj/src/m.py"; "/proj/src/pkg/n.py"].
Proof.
  exact (proj1 (expand_paths_listed_file_unfiltered Demo.direct
                  ["/proj/src"; "/proj/.env.py"; "/proj/notes.xyz"] None
                  "/proj/.env.py" (PurePath.of_str "/proj/.env.py")
                  ["/proj/.env.py"; "/proj/notes.xyz"; "/proj/src/m.py";
                   "/proj/src/pkg/n.py"]
                  ltac:(right; left) ltac:(vm_compute; reflexivity)
                  ltac:(vm_compute; reflexivity) ltac:(vm_compute; reflexivity)
                  ltac:(vm_compute; reflexivity) ltac:(vm_compute; reflexivity))).
Defined.

(** A hidden file and a file whose extension is not in the filter set are
    returned when listed, and left out when their directory is listed. *)
Example listed_versus_walked :
  expand_paths Demo.direct ["/proj/.env.py"; "/proj/notes.xyz"; "/proj/src/README"] None
    = Ok ["/proj/.env.py"; "/proj/notes.xyz"; "/proj/src/README"] ∧
  expand_paths Demo.direct ["/proj/src"] None
    = Ok ["/proj/src/m.py"; "/proj/src/pkg/n.py"].
Proof. vm_compute. split; reflexivity. Qed.

(** ** read_file_content *)

Section reader.
Context (E : Env).

(** Every return of [read_file_content] is one of the labelled blocks with
    its estimate, and the only exception it lets through is one the
    validator raised that is neither [ValueError] nor [PermissionError]. *)
Lemma read_file_content_cases file_path max_size include_line_numbers :
  match read_file_content E file_path max_size include_line_numbers with
  | Ok (block, tokens) =>
      tokens = estimate_tokens E block ∧
      read_outcome E file_path max_size include_line_numbers block
  | Raise e =>
      resolve_and_validate_path E file_path = Raise e ∧
      is_ValueError_or_PermissionError e = false
  end.
Proof.
  unfold read_file_content, with_tokens.
  destruct (resolve_and_validate_path E file_path) as [path|e] eqn:Hval.
  2:{ destruct (is_ValueError_or_PermissionError e) eqn:He; [|done].
      split; [done|]. by apply outcome_error_accessing. }
  unfold read_validated, with_tokens, catch.
  destruct (path_exists E path) as [[]|e] eqn:Hex; simpl.
  2:{ split; [done|]. by eapply outcome_not_found. }
  2:{ split; [done|]. eapply outcome_error_stat; eauto. }
  destruct (is_file E path) as [[]|e] eqn:Hfile; simpl.
  2:{ split; [done|]. by eapply outcome_not_a_file. }
  2:{ split; [done|]. eapply outcome_error_stat; eauto. }
  destruct (st_size E path) as [file_size|e] eqn:Hsize; simpl.
  2:{ split; [done|]. eapply outcome_error_reading; eauto. }
  destruct (Z.ltb_spec max_size file_size) as [Hbig|Hfit]; simpl.
  { split; [done|]. by eapply outcome_too_large. }
  destruct (read_text E path) as [file_content|e] eqn:Hread; simpl.
  - split; [done|]. by eapply outcome_file.
  - split; [done|]. eapply outcome_error_reading; eauto.
Qed.

(** With a validator that raises [ValueError] or [PermissionError] only,
    [read_file_content] always returns. *)
Lemma read_file_content_returns file_path max_size include_line_numbers :
  (∀ q, returns (resolve E q)) →
  returns (read_file_content E file_path max_size include_line_numbers).
Proof.
  intros Hres.
  pose proof (read_file_content_cases file_path max_size include_line_numbers) as H.
  destruct (read_file_content E _ _ _) as [|e]; [done|].
  destruct H as [Hval He].
  by rewrite (resolve_and_validate_path_raises E _ _ Hres Hval) in He.
Qed.

(** A file above the size limit is answered from its path and size alone:
    its content is not part of the block. *)
Lemma read_file_content_too_large file_path path max_size include_line_numbers
    file_size :
  resolve_and_validate_path E file_path = Ok path →
  path_exists E path = Ok true → is_file E path = Ok true →
  st_size E path = Ok file_size → max_size < file_size →
  read_file_content E file_path max_size include_line_numbers
  = Ok (too_large_block file_path file_size max_size,
        estimate_tokens E (too_large_block file_path file_size max_size)).
Proof.
  intros Hval Hex Hfile Hsize Hbig.
  unfold read_file_content, read_validated, with_tokens, catch.
  rewrite Hval, Hex, Hfile, Hsize. simpl.
  by rewrite (proj2 (Z.ltb_lt _ _) Hbig).
Qed.

End reader.

(** With four characters to a token every FILE TOO LARGE block has a
    positive estimate. *)
Lemma too_large_block_tokens_positive (file_path : string) (file_size max_size : Z) :
  0 < Demo.chars_div_4 (too_large_block file_path file_size max_size).
Proof.
  unfold Demo.chars_div_4, too_large_block.
  rewrite !code_points_app.
  pose proof (code_points_nonneg file_path).
  pose proof (code_points_nonneg (Str.of_Z_comma file_size)).
  pose proof (code_points_nonneg (Str.of_Z_comma max_size)).
  change (Str.code_points LF) with 1.
  change (Str.code_points "--- FILE TOO LARGE: ") with 20.
  change (Str.code_points " ---") with 4.
  change (Str.code_points "File size: ") with 11.
  change (Str.code_points " bytes (max: ") with 13.
  change (Str.code_points ")") with 1.
  change (Str.code_points "--- END FILE ---") with 16.
  apply Z.div_str_pos. lia.
Qed.

(** The scenario of the specification, scaled down: a 400-byte file read
    with a limit of 100 bytes. *)
Example read_file_content_too_large_ex :
  read_file_content Demo.direct "/proj/b.py" 100 None
  = Ok (LF +:+ "--- FILE TOO LARGE: /proj/b.py ---" +:+ LF +:+
        "File size: 400 bytes (max: 100)" +:+ LF +:+ "--- END FILE ---" +:+ LF, 21).
Proof. vm_compute. reflexivity. Qed.

(** C5 fails on a symbolic link that loops: [Path.resolve()] raises
    [RuntimeError] inside [resolve_and_validate_path], the first [try] of
    [read_file_content] names [ValueError] and [PermissionError] only, and
    the exception leaves the function where the docstring promises
    formatted content. *)
Theorem read_file_content_raises_on_symlink_loop :
  read_file_content Demo.direct "/proj/loop" 1000000 None
  = Raise (RuntimeError "Symlink loop from '/proj/loop'").
Proof. vm_compute. reflexivity. Qed.

(** ** read_files returns *)

Section totality.
Context (E : Env).
Hypothesis resolve_returns : ∀ q, returns (resolve E q).
Hypothesis path_home_returns : returns (path_home E).
Hypothesis path_exists_returns : ∀ q, returns (path_exists E q).
Hypothesis is_dir_returns : ∀ q, returns (is_dir E q).
Hypothesis is_file_returns : ∀ q, returns (is_file E q).

Lemma read_loop_returns include_line_numbers all_files st :
  returns (read_loop E include_line_numbers all_files st).
Proof.
  revert st. induction all_files as [|f rest IH]; intros st; simpl; [done|].
  destruct (_ <=? _); [done|].
  pose proof (read_file_content_returns E f 1000000 (Some include_line_numbers)
                resolve_returns) as H.
  destruct (read_file_content E f _ _) as [r|]; [simpl|done].
  destruct (_ <=? _); apply IH.
Qed.

Lemma add_files_returns file_paths include_line_numbers st :
  returns (add_files E file_paths include_line_numbers st).
Proof.
  unfold add_files. destruct file_paths as [|p ps]; [done|].
  pose proof (expand_paths_returns E path_exists_returns is_dir_returns
                is_file_returns (p :: ps) None resolve_returns
                path_home_returns) as H.
  destruct (expand_paths E (p :: ps) None) as [[|f fs]|]; [done| |done].
  apply (read_loop_returns include_line_numbers (f :: fs) st).
Qed.

Lemma read_files_state_returns file_paths code max_tokens reserve_tokens
    include_line_numbers :
  returns (read_files_state E file_paths code max_tokens reserve_tokens
             include_line_numbers).
Proof.
  unfold read_files_state.
  set (st1 := add_direct_code E code _).
  pose proof (add_files_returns file_paths include_line_numbers st1) as H.
  by destruct (add_files E file_paths include_line_numbers st1).
Qed.

End totality.

(** C2 as stated fails when the reserve exceeds the ceiling: nothing is
    accepted, the total is 0, and 0 exceeds the negative
    [max_tokens - reserve_tokens]. *)
Lemma read_files_budget_counterexample :
  ∃ st, read_files_state Demo.direct ["/proj/a.py"] None (Some 0) 1 false = Ok st ∧
        ¬ (total_tokens st ≤ 0 - 1).
Proof. eexists. split; [vm_compute; reflexivity|]. simpl. lia. Qed.

(** C2, amended.  With token estimates that are non-negative counts, the
    result of [read_files] is the accepted blocks followed by the uncharged
    notes, [total_tokens] is the sum of the estimates of the accepted
    blocks, and that sum never exceeds [max(0, max_tokens - reserve_tokens)]:
    as soon as one block is accepted it is at most
    [max_tokens - reserve_tokens], and when [reserve_tokens >= max_tokens]
    no file is read and the total stays 0.  The call returns whenever
    [Path.resolve()], [Path.home()] and the stat calls [exists()],
    [is_dir()] and [is_file()] of the expansion do. *)
Theorem read_files_budget (E : Env) (file_paths : list string)
    (code : option string) (max_tokens : option Z) (reserve_tokens : Z)
    (include_line_numbers : bool) :
  (∀ s, 0 ≤ estimate_tokens E s) →
  let available := default (DEFAULT_CONTEXT_WINDOW E) max_tokens - reserve_tokens in
  ((∀ q, returns (resolve E q)) → returns (path_home E) →
   (∀ q, returns (path_exists E q)) → (∀ q, returns (is_dir E q)) →
   (∀ q, returns (is_file E q)) →
   returns (read_files_state E file_paths code max_tokens reserve_tokens
              include_line_numbers)) ∧
  ∀ st,
    read_files_state E file_paths code max_tokens reserve_tokens
      include_line_numbers = Ok st →
    ∃ accepted,
      content_parts st = accepted ++ notes_of E file_paths (files_skipped st) ∧
      total_tokens st = sum_tokens E accepted ∧
      total_tokens st ≤ Z.max 0 available ∧
      (accepted ≠ [] → total_tokens st ≤ available) ∧
      (available ≤ 0 → total_tokens st = 0 ∧ files_read st = []).
Proof.
  intros Hnn available. split.
  { intros Hres Hhome Hex Hdir Hfile. by apply read_files_state_returns. }
  intros st Hrun.
  destruct (read_files_state_shape E _ _ _ _ _ _ Hrun) as (accepted & Hc & Ht & Hb).
  destruct (Hb Hnn) as [Hacc Hzero]. fold available in Hacc, Hzero.
  exists accepted. split_and!; [done..| |done|done].
  destruct accepted as [|b accepted]; [rewrite Ht; simpl; lia|].
  specialize (Hacc ltac:(done)). lia.
Qed.

Lemma read_files_budget_witness :
  ∃ st, read_files_state Demo.direct ["/proj/a.py"; "/proj/b.py"; "/proj/c.py"]
          (Some "x = 0") (Some 100) 10 false = Ok st ∧
        total_tokens st ≤ Z.max 0 (100 - 10).
Proof.
  eexists. split; [vm_compute; reflexivity|].
  edestruct (proj2 (read_files_budget Demo.direct
                      ["/proj/a.py"; "/proj/b.py"; "/proj/c.py"] (Some "x = 0")
                      (Some 100) 10 false chars_div_4_nonneg))
    as (accepted & _ & _ & H & _); [vm_compute; reflexivity|exact H].
Defined.

(** * Further properties *)

(** ** is_mcp_directory *)

Section mcp.
Context (E : Env).
Import PurePath.

(** The loop with its early return counts to the quorum: whenever it
    returns, it tells whether three signature files were found. *)
Lemma mcp_signature_loop_count (path : Path) (sigs : list string) (matches : Z)
    (b : bool) :
  matches < 3 →
  mcp_signature_loop E path sigs matches = Ok b →
  b = bool_decide (3 ≤ matches + Z.of_nat (length (signatures_present E path sigs))).
Proof.
  revert matches. induction sigs as [|sig_file rest IH]; intros matches Hlt; simpl.
  - intros [= <-]. rewrite bool_decide_false; [done|lia].
  - destruct (path_exists E _) as [[]|]; simpl; [| |done].
    + destruct (Z.leb_spec 3 (matches + 1)).
      * intros [= <-]. rewrite bool_decide_true; [done|lia].
      * intros ->%IH; [|lia]. apply bool_decide_ext. lia.
    + by apply IH.
Qed.

Lemma mcp_signature_loop_returns_count (path : Path) (sigs : list string)
    (matches : Z) :
  (∀ sig_file, sig_file ∈ sigs →
     returns (path_exists E (joinpath path (of_str sig_file)))) →
  matches < 3 →
  mcp_signature_loop E path sigs matches
  = Ok (bool_decide
          (3 ≤ matches + Z.of_nat (length (signatures_present E path sigs)))).
Proof.
  intros Hret Hlt.
  assert (returns (mcp_signature_loop E path sigs matches)) as H.
  { clear Hlt. revert matches.
    induction sigs as [|sig_file rest IH]; intros matches; [done|]. simpl.
    pose proof (Hret sig_file ltac:(by left)) as Hsig.
    assert (∀ m, returns (mcp_signature_loop E path rest m)) as Hrest.
    { intros m. apply IH. intros s Hs. apply Hret. by right. }
    destruct (path_exists E _) as [[]|]; simpl; [|apply Hrest|done].
    destruct (3 <=? matches + 1); [done|apply Hrest]. }
  destruct (mcp_signature_loop E path sigs matches) as [b|] eqn:Hb; [|done].
  by rewrite (mcp_signature_loop_count _ _ _ _ Hlt Hb).
Qed.

Lemma signatures_present_Permutation (path : Path) (sigs sigs' : list string) :
  sigs ≡ₚ sigs' →
  length (signatures_present E path sigs) = length (signatures_present E path sigs').
Proof.
  unfold signatures_present.
  induction 1 as [|x l l' _ IH|x y l|l1 l2 l3 _ IH1 _ IH2]; simpl.
  - done.
  - destruct (answers_true _); simpl; by rewrite IH.
  - by destruct (answers_true _), (answers_true _).
  - by rewrite IH1.
Qed.

End mcp.

(** X1.  A directory is taken for the server's own exactly when at least
    three of the signature files exist in it: whenever [is_mcp_directory]
    returns, its answer says whether the path is a directory in which three
    signature files were found.  It returns when [is_dir()] and the
    [exists()] calls on the signature files do, and then the order in which
    the signature files are tried does not matter. *)
Theorem is_mcp_directory_quorum (E : Env) (path : Path) :
  (∀ b, is_mcp_directory E path = Ok b →
     (b = true ↔
      is_dir E path = Ok true ∧
      (3 ≤ length (signatures_present E path (MCP_SIGNATURE_FILES E)))%nat)) ∧
  (returns (is_dir E path) →
   (∀ sig_file, sig_file ∈ MCP_SIGNATURE_FILES E →
      returns (path_exists E
                 (PurePath.joinpath path (PurePath.of_str sig_file)))) →
   returns (is_mcp_directory E path)) ∧
  ∀ sigs sigs',
    (∀ sig_file, sig_file ∈ sigs →
       returns (path_exists E
                  (PurePath.joinpath path (PurePath.of_str sig_file)))) →
    sigs ≡ₚ sigs' →
    mcp_signature_loop E path sigs 0 = mcp_signature_loop E path sigs' 0.
Proof.
  split_and!.
  - intros b. unfold is_mcp_directory.
    destruct (is_dir E path) as [[]|]; simpl; [| |done].
    + intros ->%mcp_signature_loop_count; [|lia].
      rewrite bool_decide_eq_true.
      split; [intros H; split; [done|lia]|intros [_ H]; lia].
    + intros [= <-]. split; [done|]. by intros [? _].
  - intros Hdir Hsigs. unfold is_mcp_directory.
    destruct (is_dir E path) as [[]|]; simpl; [|done..].
    by rewrite mcp_signature_loop_returns_count.
  - intros sigs sigs' Hret Hperm.
    assert (∀ sig_file, sig_file ∈ sigs' →
              returns (path_exists E
                         (PurePath.joinpath path (PurePath.of_str sig_file))))
      as Hret'.
    { intros sig_file Hin. apply Hret. by rewrite Hperm. }
    rewrite (mcp_signature_loop_returns_count E path sigs 0 Hret ltac:(lia)).
    rewrite (mcp_signature_loop_returns_count E path sigs' 0 Hret' ltac:(lia)).
    by rewrite (signatures_present_Permutation E path _ _ Hperm).
Qed.

(** ** is_home_directory_root *)

Section home.
Context (E : Env).
Import PurePath.

Lemma startswith_nil (s : string) : Str.startswith "" s = true.
Proof. by destruct s. Qed.

Lemma contains_startswith (sub s : string) :
  Str.startswith sub s = true → Str.contains sub s = true.
Proof. intros H. destruct s; cbn [Str.contains]; by rewrite H. Qed.

Lemma contains_char (c : ascii) (s : string) :
  Str.contains (String c "") s = has_char c s.
Proof.
  induction s as [|d s IH]; [done|].
  simpl. rewrite <- IH. destruct (ascii_dec c d) as [->|Hne].
  - rewrite bool_decide_true by done. by destruct s.
  - by rewrite bool_decide_false.
Qed.

(** A text without the first character of the separator is one piece. *)
Lemma split_go_one_piece (c : ascii) (sep acc s : string) :
  has_char c s = false →
  Str.split_go (String c sep) 0 acc s = [String.rev acc +:+ s].
Proof.
  revert acc. induction s as [|d s IH]; intros acc Hs.
  - simpl. by rewrite app_empty_r.
  - simpl in Hs. apply orb_false_iff in Hs as [Hcd Hs].
    apply bool_decide_eq_false in Hcd. simpl.
    destruct (ascii_dec c d) as [->|_]; [done|].
    rewrite IH by done. unfold String.rev. simpl.
    rewrite !rev_app_app. reflexivity.
Qed.

Lemma split_home (name : string) :
  has_char "/" name = false →
  Str.split "/home/" ("/home/" +:+ name) = [""; name].
Proof.
  intros H. unfold Str.split.
  change ("/home/" +:+ name)
    with (String "/" (String "h" (String "o" (String "m" (String "e" (String "/" name)))))).
  simpl. rewrite startswith_nil. by rewrite split_go_one_piece.
Qed.

Lemma split_users (name : string) :
  has_char "/" name = false →
  Str.split "/users/" ("/users/" +:+ name) = [""; name].
Proof.
  intros H. unfold Str.split.
  change ("/users/" +:+ name)
    with (String "/" (String "u" (String "s" (String "e" (String "r" (String "s"
            (String "/" name))))))).
  simpl. rewrite startswith_nil. by rewrite split_go_one_piece.
Qed.

(** One pattern that matches is enough, wherever it stands in the list. *)
Lemma home_pattern_loop_true (path_str pattern after : string)
    (patterns : list string) :
  pattern ∈ patterns →
  Str.contains pattern path_str = true →
  (∃ first rest, Str.split pattern path_str = first :: after :: rest) →
  has_char "/" after = false → has_char "\" after = false →
  home_pattern_loop path_str patterns = true.
Proof.
  intros Hin Hc (first & rest & Hsplit) Hs Hb.
  induction patterns as [|p ps IH]; [by apply elem_of_nil in Hin|].
  simpl. apply elem_of_cons in Hin as [<-|Hin].
  - rewrite Hc, Hsplit. simpl. by rewrite !contains_char, Hs, Hb.
  - specialize (IH Hin). rewrite IH. by repeat case_match.
Qed.

End home.

(** X2.  Once the home directory is determined, [is_home_directory_root]
    does not raise: a failure to canonicalize the path or the home directory
    is answered [False], and a path that canonicalizes to the home directory
    is answered [True]. *)
Theorem is_home_directory_root_soft (E : Env) (path user_home : Path) :
  get_user_home_directory E = Ok user_home →
  returns (is_home_directory_root E path) ∧
  (raises (resolve E path) → is_home_directory_root E path = Ok false) ∧
  (∀ resolved_path, resolve E path = Ok resolved_path →
     raises (resolve E user_home) → is_home_directory_root E path = Ok false) ∧
  (∀ resolved_path, resolve E path = Ok resolved_path →
     resolve E user_home = Ok resolved_path →
     is_home_directory_root E path = Ok true).
Proof.
  intros Hhome. unfold is_home_directory_root. rewrite Hhome. simpl.
  split_and!.
  - unfold catch. by destruct (_ ≫= _).
  - by destruct (resolve E path).
  - intros rp ->. simpl. by destruct (resolve E user_home).
  - intros rp -> ->. simpl. by rewrite bool_decide_true.
Qed.

Lemma is_home_directory_root_soft_witness :
  is_home_directory_root Demo.direct (PurePath.of_str "/home/john") = Ok true.
Proof.
  exact (proj2 (proj2 (proj2
           (is_home_directory_root_soft Demo.direct (PurePath.of_str "/home/john")
              (PurePath.of_str "/home/john") ltac:(vm_compute; reflexivity))))
           (PurePath.of_str "/home/john")
           ltac:(vm_compute; reflexivity) ltac:(vm_compute; reflexivity)).
Defined.

(** X3.  The heuristic takes every directory that sits directly under
    [/home/] or [/users/] (in lower case) for a home directory root, whoever
    the user is. *)
Theorem home_pattern_any_user (E : Env) (path user_home resolved_path
    resolved_home : Path) (name : string) :
  get_user_home_directory E = Ok user_home →
  resolve E path = Ok resolved_path →
  resolve E user_home = Ok resolved_home →
  str_lower E (PurePath.str resolved_path) = "/home/" +:+ name ∨
    str_lower E (PurePath.str resolved_path) = "/users/" +:+ name →
  has_char "/" name = false → has_char "\" name = false →
  is_home_directory_root E path = Ok true.
Proof.
  intros Hhome Hrp Hrh Hstr Hs Hb.
  unfold is_home_directory_root, catch, mbind, result_bind.
  rewrite Hhome. cbv beta iota. rewrite Hrp. cbv beta iota.
  rewrite Hrh. cbv beta iota. case_bool_decide; [done|]. f_equal.
  destruct Hstr as [-> | ->].
  - apply (home_pattern_loop_true _ "/home/" name).
    + unfold home_patterns. set_solver.
    + apply contains_startswith, startswith_app.
    + exists "", []. by apply split_home.
    + done.
    + done.
  - apply (home_pattern_loop_true _ "/users/" name).
    + unfold home_patterns. set_solver.
    + apply contains_startswith, startswith_app.
    + exists "", []. by apply split_users.
    + done.
    + done.
Qed.

Lemma home_pattern_any_user_witness :
  is_home_directory_root Demo.direct (PurePath.of_str "/home/Alice") = Ok true.
Proof.
  exact (home_pattern_any_user Demo.direct (PurePath.of_str "/home/Alice")
           (PurePath.of_str "/home/john") (PurePath.of_str "/home/Alice")
           (PurePath.of_str "/home/john") "alice"
           ltac:(vm_compute; reflexivity) ltac:(vm_compute; reflexivity)
           ltac:(vm_compute; reflexivity) ltac:(left; vm_compute; reflexivity)
           ltac:(vm_compute; reflexivity) ltac:(vm_compute; reflexivity)).
Defined.

(** ** _normalize_line_endings *)

Section line_endings.

(** A text without the first character of [old] is left as it is. *)
Lemma replace_go_without_first (c : ascii) (old new s : string) :
  has_char c s = false → Str.replace_go (String c old) new 0 s = s.
Proof.
  induction s as [|d s IH]; intros Hs; [done|].
  simpl in Hs. apply orb_false_iff in Hs as [Hcd Hs].
  apply bool_decide_eq_false in Hcd. simpl.
  destruct (ascii_dec c d) as [->|_]; [done|]. by rewrite IH.
Qed.

(** Replacing a character by another one leaves no occurrence of it. *)
Lemma replace_char_gone (c d : ascii) (s : string) :
  c ≠ d → has_char c (Str.replace (String c "") (String d "") s) = false.
Proof.
  intros Hcd. unfold Str.replace. induction s as [|x s IH]; [done|].
  simpl. destruct (ascii_dec c x) as [->|Hne].
  - rewrite startswith_nil. rewrite app_cons, app_nil_s. simpl.
    by rewrite bool_decide_false.
  - simpl. by rewrite bool_decide_false.
Qed.

End line_endings.

(** X4.  [_normalize_line_endings] leaves no carriage return in the text,
    changes nothing in a text that has none, and so gives the same result
    when applied twice. *)
Theorem normalize_line_endings_no_CR (content : string) :
  has_char "013" (_normalize_line_endings content) = false ∧
  (has_char "013" content = false → _normalize_line_endings content = content) ∧
  _normalize_line_endings (_normalize_line_endings content)
    = _normalize_line_endings content.
Proof.
  assert (∀ s, has_char "013" (_normalize_line_endings s) = false) as Hgone.
  { intros s. unfold _normalize_line_endings, CR, LF. by apply replace_char_gone. }
  assert (∀ s, has_char "013" s = false → _normalize_line_endings s = s) as Hid.
  { intros s Hs. unfold _normalize_line_endings, Str.replace, CR, LF.
    rewrite app_cons, app_nil_s.
    rewrite (replace_go_without_first "013" (String "010" "") _ s Hs).
    by rewrite (replace_go_without_first "013" "" _ s Hs). }
  split_and!; [apply Hgone|apply Hid|apply Hid, Hgone].
Qed.

(** ** translate_path_for_environment, translate_file_paths *)

Section translation_results.
Context (E : Env).
Import PurePath.

Lemma is_container_path_absolute (s : string) :
  is_absolute (CONTAINER_WORKSPACE E) = true →
  is_container_path E s = true → Str.startswith "/" s = true.
Proof.
  intros Habs. pose proof (str_starts_with_slash _ Habs) as Hslash.
  unfold is_container_path. intros [H|H]%orb_true_iff.
  - apply startswith_inv in H as [b ->]. apply startswith_inv in Hslash as [a ->].
    rewrite !app_assoc_s. apply startswith_app.
  - apply bool_decide_eq_true in H. by subst.
Qed.

(** The two ways a translation ends when the mount is configured. *)
Lemma translate_configured_cases (w path_str : string) :
  is_absolute (CONTAINER_WORKSPACE E) = true →
  parts (CONTAINER_WORKSPACE E) ≠ [] →
  mount_configured E = Some w →
  is_container_path E (translate_path_for_environment E path_str) = true ∨
  translate_path_for_environment E path_str
    = "/inaccessible/outside/mounted/volume" +:+ path_str ∨
  translate_path_for_environment E path_str
    = "/inaccessible/translation/error" +:+ path_str.
Proof.
  intros Habs Hne Hm. unfold translate_path_for_environment. rewrite Hm.
  destruct (is_container_path E path_str) eqn:Hc; [by left|].
  destruct (translate_host_path E w path_str) as [s|e] eqn:Hs.
  - left. by eapply translate_host_path_is_container_path.
  - right. destruct e; auto.
Qed.

Lemma of_str_relative (s : string) :
  Str.startswith "/" s = false → is_absolute (of_str s) = false.
Proof. intros H. unfold is_absolute, of_str, parse_root. simpl. by rewrite H. Qed.

End translation_results.

(** X5.  With the mount configured, a translation never hands a host path
    on: its result begins with the container path or with [/inaccessible/],
    and it is an absolute path in either case. *)
Theorem translate_never_returns_host_path (E : Env) (w path_str : string) :
  PurePath.is_absolute (CONTAINER_WORKSPACE E) = true →
  parts (CONTAINER_WORKSPACE E) ≠ [] →
  mount_configured E = Some w →
  (is_container_path E (translate_path_for_environment E path_str) = true ∨
   Str.startswith "/inaccessible/" (translate_path_for_environment E path_str)
     = true) ∧
  PurePath.is_absolute
    (PurePath.of_str (translate_path_for_environment E path_str)) = true.
Proof.
  intros Habs Hne Hm.
  destruct (translate_configured_cases E w path_str Habs Hne Hm) as [H|[H|H]].
  - split; [by left|]. by eapply of_str_absolute, is_container_path_absolute.
  - rewrite H.
    change "/inaccessible/outside/mounted/volume"
      with ("/" +:+ "inaccessible/" +:+ "outside/mounted/volume").
    split; [right|apply of_str_absolute]; rewrite ?app_assoc_s.
    + rewrite <- (app_assoc_s "/" "inaccessible/"). apply startswith_app.
    + apply startswith_app.
  - rewrite H.
    change "/inaccessible/translation/error"
      with ("/" +:+ "inaccessible/" +:+ "translation/error").
    split; [right|apply of_str_absolute]; rewrite ?app_assoc_s.
    + rewrite <- (app_assoc_s "/" "inaccessible/"). apply startswith_app.
    + apply startswith_app.
Qed.

Lemma translate_never_returns_host_path_witness :
  Str.startswith "/inaccessible/"
    (translate_path_for_environment Demo.docker "../etc/passwd") = true.
Proof.
  generalize (translate_never_returns_host_path Demo.docker "/Users/john/project"
                "../etc/passwd" ltac:(vm_compute; reflexivity)
                ltac:(vm_compute; discriminate) ltac:(vm_compute; reflexivity)).
  vm_compute. intros _. reflexivity.
Defined.

(** X6.  With the mount configured the validator never refuses an input for
    being relative: the translated path always passes the absolute-path
    test, and once [Path.resolve()] has returned, the input is either
    accepted or refused with [PermissionError]. *)
Theorem no_relative_error_with_mount (E : Env) (w path_str : string)
    (resolved_path : Path) :
  PurePath.is_absolute (CONTAINER_WORKSPACE E) = true →
  parts (CONTAINER_WORKSPACE E) ≠ [] →
  mount_configured E = Some w →
  resolve E (PurePath.of_str (translate_path_for_environment E path_str))
    = Ok resolved_path →
  resolve_and_validate_path E path_str = Ok resolved_path ∨
  resolve_and_validate_path E path_str
    = Raise (PermissionError (outside_msg E path_str resolved_path)).
Proof.
  intros Habs Hne Hm Hres.
  destruct (translate_never_returns_host_path E w path_str Habs Hne Hm) as [_ Ha].
  pose proof (resolve_and_validate_path_cases E path_str) as H. simpl in H.
  destruct (resolve_and_validate_path E path_str) as [r|e].
  - left. destruct H as (_ & Hr & _). congruence.
  - right. destruct H as [[Hrel _]|[[_ Hr]|(_ & r & Hr & _ & ->)]]; congruence.
Qed.

Lemma no_relative_error_with_mount_witness :
  ∃ msg, resolve_and_validate_path Demo.docker "src/file.py"
         = Raise (PermissionError msg).
Proof.
  destruct (no_relative_error_with_mount Demo.docker "/Users/john/project"
              "src/file.py"
              (PurePath.of_str "/inaccessible/outside/mounted/volumesrc/file.py")
              ltac:(vm_compute; reflexivity) ltac:(vm_compute; discriminate)
              ltac:(vm_compute; reflexivity) ltac:(vm_compute; reflexivity))
    as [H|H].
  - exfalso. vm_compute in H. discriminate.
  - eexists. exact H.
Defined.

(** X7.  Without the mount configured an input that does not begin with
    [/] is refused with [ValueError], whatever is on the disk. *)
Theorem relative_path_refused (E : Env) (path_str : string) :
  mount_configured E = None →
  Str.startswith "/" path_str = false →
  resolve_and_validate_path E path_str = Raise (ValueError (relative_msg path_str)).
Proof.
  intros Hm Hrel. unfold resolve_and_validate_path, translate_path_for_environment.
  rewrite Hm. by rewrite of_str_relative.
Qed.

Lemma relative_path_refused_witness :
  resolve_and_validate_path Demo.direct "proj/a.py"
  = Raise (ValueError (relative_msg "proj/a.py")).
Proof.
  exact (relative_path_refused Demo.direct "proj/a.py"
           ltac:(vm_compute; reflexivity) ltac:(vm_compute; reflexivity)).
Defined.

(** X8.  [translate_file_paths] translates entry by entry, keeping the
    number and the order of the entries, returns [None] for [None], and
    returns its argument unchanged when the mount is not configured. *)
Theorem translate_file_paths_entries (E : Env) :
  translate_file_paths E None = None ∧
  (∀ file_paths,
     translate_file_paths E (Some file_paths)
     = Some (map (translate_path_for_environment E) file_paths)) ∧
  (mount_configured E = None →
   ∀ file_paths, translate_file_paths E file_paths = file_paths).
Proof.
  split_and!; [done|by intros []|].
  intros Hm [l|]; [|done].
  assert (map (translate_path_for_environment E) l = l) as Hid.
  { induction l as [|p l IH]; [done|]. simpl. rewrite IH. f_equal.
    unfold translate_path_for_environment. by rewrite Hm. }
  destruct l as [|p l]; [done|]. unfold translate_file_paths. by rewrite Hid.
Qed.

(** ** expand_paths: guards, unusable entries, order of the entries *)

Section expansion_more.
Context (E : Env).
Import PurePath.

Lemma expand_paths_drop extensions pre path post :
  entry_files E (default (CODE_EXTENSIONS E) extensions) path = Ok [] →
  expand_paths E (pre ++ path :: post) extensions
  = expand_paths E (pre ++ post) extensions.
Proof. intros Hskip. unfold expand_paths. by rewrite expand_loop_drop. Qed.

(** What an entry contributes is what it offers. *)
Lemma contribution_files extensions path lp :
  entry_files E extensions path = Ok lp →
  ∀ y, y ∈ contribution E extensions path ↔ y ∈ lp.
Proof.
  intros Hlp y. unfold contribution, files_of.
  rewrite expand_one_files, Hlp. simpl. rewrite elem_of_list_to_set.
  destruct (add_all_spec lp _ (consistent_empty)) as [_ Hel].
  rewrite Hel. simpl. split; [|by right].
  intros [H|H]; [by apply elem_of_nil in H|done].
Qed.

End expansion_more.



(** X10.  An entry that cannot be used is passed over in silence: one that
    fails validation with [ValueError] or [PermissionError], one that
    [exists()] answers [False] for, and one that exists and that both
    [is_dir()] and [is_file()] answer [False] for.  The result is the result
    for the list without it. *)
Theorem expand_paths_ignores_unusable (E : Env) (extensions : option (gset string))
    (pre post : list string) (path : string) :
  (∃ e, resolve_and_validate_path E path = Raise e ∧
        is_ValueError_or_PermissionError e = true) ∨
  (∃ path_obj, resolve_and_validate_path E path = Ok path_obj ∧
               (path_exists E path_obj = Ok false ∨
                path_exists E path_obj = Ok true ∧
                is_dir E path_obj = Ok false ∧ is_file E path_obj = Ok false)) →
  expand_paths E (pre ++ path :: post) extensions
  = expand_paths E (pre ++ post) extensions.
Proof.
  intros Hbad. apply expand_paths_drop. unfold entry_files.
  destruct Hbad as [(e & -> & ->)|(path_obj & -> & [Hex|(Hex & Hdir & Hfile)])];
    [done| |].
  - by rewrite Hex.
  - by rewrite Hex, Hdir, Hfile.
Qed.

Lemma expand_paths_ignores_unusable_witness :
  expand_paths Demo.direct (["/proj/a.py"] ++ "/etc/passwd" :: ["/proj/c.py"]) None
  = expand_paths Demo.direct (["/proj/a.py"] ++ ["/proj/c.py"]) None.
Proof.
  apply (expand_paths_ignores_unusable Demo.direct None ["/proj/a.py"] ["/proj/c.py"]
           "/etc/passwd").
  left. eexists. split; vm_compute; reflexivity.
Defined.

(** X11.  The result of [expand_paths] is the sorted union of what each
    entry contributes by itself, so it depends on the set of the entries
    only: neither their order nor a repetition changes it. *)
Theorem expand_paths_order_independent (E : Env) (extensions : option (gset string))
    (paths paths' : list string) (l l' : list string) :
  expand_paths E paths extensions = Ok l →
  (∀ y, y ∈ l ↔
        ∃ path, path ∈ paths ∧
                y ∈ contribution E (default (CODE_EXTENSIONS E) extensions) path) ∧
  ((∀ path, path ∈ paths ↔ path ∈ paths') →
   expand_paths E paths' extensions = Ok l' → l = l').
Proof.
  assert (∀ ps k,
            expand_paths E ps extensions = Ok k →
            Sorted String.le k ∧ NoDup k ∧
            ∀ y, y ∈ k ↔
                 ∃ path, path ∈ ps ∧
                   y ∈ contribution E (default (CODE_EXTENSIONS E) extensions) path)
    as Hchar.
  { intros ps k (_ & Hsorted & Hnd & Hret & Hel)%expand_paths_elements.
    split_and!; [done..|]. intros y. rewrite Hel. split.
    - intros (path & lp & Hin & Hlp & Hy). exists path. split; [done|].
      by apply (contribution_files E _ _ _ Hlp).
    - intros (path & Hin & Hy). rewrite Forall_forall in Hret.
      specialize (Hret path Hin).
      destruct (entry_files E _ path) as [lp|] eqn:Hlp; [|done].
      exists path, lp. split_and!; [done..|].
      by apply (contribution_files E _ _ _ Hlp). }
  intros Hrun. destruct (Hchar _ _ Hrun) as (Hs & Hnd & Hel).
  split; [done|]. intros Hsame Hrun'.
  destruct (Hchar _ _ Hrun') as (Hs' & Hnd' & Hel').
  apply (Sorted_unique String.le); [done..|].
  apply NoDup_Permutation; [done..|].
  intros y. rewrite Hel, Hel'. split; intros (p & Hp & Hy); exists p;
    (split; [by apply Hsame|done]).
Qed.

Lemma expand_paths_order_independent_witness :
  expand_paths Demo.direct ["/proj/src"; "/proj/a.py"] None
  = expand_paths Demo.direct ["/proj/a.py"; "/proj/src"; "/proj/a.py"] None.
Proof.
  assert (expand_paths Demo.direct ["/proj/src"; "/proj/a.py"] None
          = Ok ["/proj/a.py"; "/proj/src/m.py"; "/proj/src/pkg/n.py"]) as H
    by (vm_compute; reflexivity).
  assert (expand_paths Demo.direct ["/proj/a.py"; "/proj/src"; "/proj/a.py"] None
          = Ok ["/proj/a.py"; "/proj/src/m.py"; "/proj/src/pkg/n.py"]) as H'
    by (vm_compute; reflexivity).
  rewrite H, H'. apply (f_equal (@Ok (list string))).
  refine (proj2 (expand_paths_order_independent Demo.direct None
                   ["/proj/src"; "/proj/a.py"]
                   ["/proj/a.py"; "/proj/src"; "/proj/a.py"] _ _ H) _ H').
  intros path. rewrite !elem_of_cons. intuition.
Defined.

(** X12.  Every path of the result was either listed itself or found by
    the walk of a listed directory: it is a file that [os.walk] lists in
    that directory or in one reached from it through sub-directories that
    were all kept, so that no file below a sub-directory whose name begins
    with a dot, is excluded, or that is a copy of the server is found.
    Conversely, all that the walk of a listed directory that passes the
    guards finds is in the result. *)
Theorem expand_paths_walks_kept_directories (E : Env)
    (extensions : option (gset string)) (paths l : list string) :
  expand_paths E paths extensions = Ok l →
  (∀ y, y ∈ l →
     listed E paths y ∨
     found_below E paths (default (CODE_EXTENSIONS E) extensions) y) ∧
  (∀ path path_obj y,
     path ∈ paths → resolve_and_validate_path E path = Ok path_obj →
     path_exists E path_obj = Ok true → is_dir E path_obj = Ok true →
     directory_guards E path_obj = Ok false → is_file E path_obj = Ok false →
     found_in E (default (CODE_EXTENSIONS E) extensions)
       (PurePath.str path_obj) (walk E path_obj) y →
     y ∈ l).
Proof.
  intros (_ & _ & _ & Hret & Hel)%expand_paths_elements. split.
  - intros y (p & lp & Hp & Hlp & Hy)%Hel.
    destruct (entry_files_from E _ _ _ _ Hlp Hy)
      as [(p' & q & ->%list_elem_of_singleton & H)
         |(p' & q & ->%list_elem_of_singleton & H)]; [left|right];
      by exists p, q.
  - intros path path_obj y Hin Hval Hex Hdir Hguards Hfile Hfound.
    rewrite Forall_forall in Hret. specialize (Hret path Hin).
    rewrite (entry_files_directory E _ _ _ Hval Hex Hdir Hguards Hfile) in Hret.
    destruct (walk_files E _ (PurePath.str path_obj) (walk E path_obj))
      as [lp|] eqn:Hw; [|done].
    apply Hel. exists path, lp. split_and!; [done| |].
    + by rewrite (entry_files_directory E _ _ _ Hval Hex Hdir Hguards Hfile).
    + by apply (walk_files_found E _ _ _ _ Hw).
Qed.

Lemma expand_paths_walks_kept_directories_witness :
  listed Demo.direct ["/proj/src"] "/proj/src/pkg/n.py" ∨
  found_below Demo.direct ["/proj/src"] (CODE_EXTENSIONS Demo.direct)
    "/proj/src/pkg/n.py".
Proof.
  apply (proj1 (expand_paths_walks_kept_directories Demo.direct None ["/proj/src"]
                  ["/proj/src/m.py"; "/proj/src/pkg/n.py"]
                  ltac:(vm_compute; reflexivity))).
  right; left.
Defined.

(** The walk of [/proj/src] does not find the file in [.git], nor the one
    in [node_modules], nor the file without extension. *)
Example hidden_and_excluded_directories_are_not_entered :
  ¬ found_below Demo.direct ["/proj/src"] (CODE_EXTENSIONS Demo.direct)
      "/proj/src/.git/config.py" ∧
  ¬ found_below Demo.direct ["/proj/src"] (CODE_EXTENSIONS Demo.direct)
      "/proj/src/node_modules/dep.py" ∧
  ¬ found_below Demo.direct ["/proj/src"] (CODE_EXTENSIONS Demo.direct)
      "/proj/src/README".
Proof.
  assert (∀ y, found_below Demo.direct ["/proj/src"] (CODE_EXTENSIONS Demo.direct) y →
               y ∈ ["/proj/src/m.py"; "/proj/src/pkg/n.py"]) as Hfound.
  { intros y (path & path_obj & ->%list_elem_of_singleton & Hval & _ & _ & _ & _ & Hf).
    assert (path_obj = PurePath.of_str "/proj/src") as ->.
    { vm_compute in Hval. injection Hval as <-. reflexivity. }
    refine (proj2 (walk_files_found Demo.direct _ _ _ _ _ y) Hf).
    vm_compute. reflexivity. }
  split_and!; intros H%Hfound;
    repeat (apply elem_of_cons in H as [H|H]; [discriminate|]);
    by apply elem_of_nil in H.
Qed.

(** ** read_file_content: outcomes, size guard, labels *)

(** X13.  Whatever it is given, [read_file_content] either returns one of
    the labelled blocks together with the estimate of that very block, or
    lets through an exception that [Path.resolve()] raised in the validator
    and that is neither [ValueError] nor [PermissionError]; nothing else
    leaves it. *)
Theorem read_file_content_outcomes (E : Env) (file_path : string) (max_size : Z)
    (include_line_numbers : option bool) :
  match read_file_content E file_path max_size include_line_numbers with
  | Ok (block, tokens) =>
      tokens = estimate_tokens E block ∧
      read_outcome E file_path max_size include_line_numbers block
  | Raise e =>
      is_ValueError_or_PermissionError e = false ∧
      resolve E (PurePath.of_str (translate_path_for_environment E file_path))
        = Raise e
  end.
Proof.
  pose proof (read_file_content_cases E file_path max_size include_line_numbers) as H.
  destruct (read_file_content E file_path max_size include_line_numbers)
    as [[block tokens]|e]; [done|].
  destruct H as [Hval He]. split; [done|].
  pose proof (resolve_and_validate_path_cases E file_path) as Hc. simpl in Hc.
  rewrite Hval in Hc.
  destruct Hc as [[_ ->]|[[_ Hr]|(_ & r & _ & _ & ->)]]; [done|done|done].
Qed.

(** X14.  The size guard is strict: a file larger than [max_size] is
    answered with the FILE TOO LARGE block, built from the path and the two
    sizes without the content being read, and a file of [max_size] bytes or
    fewer is read in full. *)
Theorem read_file_content_size_guard (E : Env) (file_path : string) (path : Path)
    (max_size file_size : Z) (include_line_numbers : option bool) :
  resolve_and_validate_path E file_path = Ok path →
  path_exists E path = Ok true → is_file E path = Ok true →
  st_size E path = Ok file_size →
  (max_size < file_size →
   read_file_content E file_path max_size include_line_numbers
   = Ok (too_large_block file_path file_size max_size,
         estimate_tokens E (too_large_block file_path file_size max_size))) ∧
  (file_size ≤ max_size →
   ∀ file_content, read_text E path = Ok file_content →
     let text := if should_add_line_numbers file_path include_line_numbers
                 then _add_line_numbers file_content
                 else _normalize_line_endings file_content in
     read_file_content E file_path max_size include_line_numbers
     = Ok (file_block file_path text, estimate_tokens E (file_block file_path text))).
Proof.
  intros Hval Hex Hfile Hsize.
  unfold read_file_content, read_validated, with_tokens, catch.
  rewrite Hval, Hex, Hfile, Hsize. simpl. split.
  - intros Hbig. by rewrite (proj2 (Z.ltb_lt _ _) Hbig).
  - intros Hfit file_content Hread. rewrite (proj2 (Z.ltb_ge _ _) Hfit), Hread.
    reflexivity.
Qed.

Lemma read_file_content_size_guard_witness :
  read_file_content Demo.direct "/proj/b.py" 400 None
  = Ok (file_block "/proj/b.py" (Str.repeat "b" 400),
        estimate_tokens Demo.direct (file_block "/proj/b.py" (Str.repeat "b" 400))).
Proof.
  generalize (proj2 (read_file_content_size_guard Demo.direct "/proj/b.py"
                       (PurePath.of_str "/proj/b.py") 400 400 None
                       ltac:(vm_compute; reflexivity) ltac:(vm_compute; reflexivity)
                       ltac:(vm_compute; reflexivity) ltac:(vm_compute; reflexivity))
                ltac:(lia) (Str.repeat "b" 400) ltac:(vm_compute; reflexivity)).
  vm_compute. intros H. exact H.
Defined.

(** X15.  The blocks are told apart by their first line: the seven
    characters after the leading line feed, dashes and space differ between
    the nine kinds of block, whatever path, message, sizes or content a
    block carries. *)
Theorem blocks_are_labelled (file_path text : string) (file_size max_size : Z)
    (paths : list string) :
  kind_of_block (error_accessing_block file_path text) = Some ErrorAccessing ∧
  kind_of_block (not_found_block file_path) = Some NotFound ∧
  kind_of_block (not_a_file_block file_path) = Some NotAFile ∧
  kind_of_block (too_large_block file_path file_size max_size) = Some TooLarge ∧
  kind_of_block (error_reading_block file_path text) = Some ErrorReading ∧
  kind_of_block (file_block file_path text) = Some FileContent ∧
  kind_of_block (direct_code_block text) = Some DirectCode ∧
  kind_of_block (no_files_found_block paths) = Some NoFilesFound ∧
  kind_of_block (skip_note paths) = Some SkippedFiles.
Proof. split_and!; reflexivity. Qed.

(** ** read_files: layout of the result *)

Section layout.
Context (E : Env).

(** The files of a scan are split between the accepted ones, whose blocks
    are appended in the order of the list, and the skipped ones. *)
Lemma scan_partition include_line_numbers all_files st st' :
  scan E include_line_numbers all_files st st' →
  ∃ accepted_files skipped blocks,
    content_parts st' = content_parts st ++ blocks ∧
    files_skipped st' = files_skipped st ++ skipped ∧
    accepted_files `sublist_of` all_files ∧
    skipped `sublist_of` all_files ∧
    accepted_files ++ skipped ≡ₚ all_files ∧
    Forall2 (λ file_path block,
               ∃ tokens, read_file_content E file_path 1000000
                           (Some include_line_numbers) = Ok (block, tokens))
      accepted_files blocks.
Proof.
  induction 1 as [st|f rest st Hex|f rest st c t st' Hne Hread Hfit _ IH
                 |f rest st c t st' Hne Hread Hbig _ IH].
  - exists [], [], []. rewrite !app_nil_r. split_and!; by try constructor.
  - exists [], (f :: rest), []. simpl. rewrite !app_nil_r.
    split_and!; try done; try apply sublist_nil_l; by try constructor.
  - destruct IH as (acc & sk & bl & Hc & Hs & Ha & Hk & Hp & Hf).
    exists (f :: acc), sk, (c :: bl). simpl in *.
    rewrite Hc, Hs, <- !app_assoc. split_and!; try done.
    + by apply sublist_skip.
    + by apply sublist_cons.
    + by constructor.
    + constructor; [by exists t|done].
  - destruct IH as (acc & sk & bl & Hc & Hs & Ha & Hk & Hp & Hf).
    exists acc, (f :: sk), bl. simpl in *.
    rewrite Hc, Hs, <- !app_assoc. split_and!; try done.
    + by apply sublist_cons.
    + by apply sublist_skip.
    + rewrite <- Permutation_middle. by constructor.
Qed.

Lemma add_direct_code_content code A :
  content_parts
    (add_direct_code E code
       {| content_parts := []; total_tokens := 0; available_tokens := A;
          files_skipped := []; files_read := [] |})
  = code_part_of E code A.
Proof.
  unfold add_direct_code, code_part_of. destruct (truthy code) as [c|]; [|done].
  simpl. by destruct (_ <=? _).
Qed.

Lemma read_files_state_layout file_paths code max_tokens reserve_tokens
    include_line_numbers st all_files :
  read_files_state E file_paths code max_tokens reserve_tokens
    include_line_numbers = Ok st →
  expand_paths E file_paths None = Ok all_files →
  let A := default (DEFAULT_CONTEXT_WINDOW E) max_tokens - reserve_tokens in
  ∃ accepted_files blocks,
    content_parts st
    = code_part_of E code A ++ blocks ++ notes_of E file_paths (files_skipped st) ∧
    (blocks ≠ [] →
     sum_tokens E blocks ≤ A - 2 * sum_tokens E (code_part_of E code A)) ∧
    accepted_files `sublist_of` all_files ∧
    files_skipped st `sublist_of` all_files ∧
    accepted_files ++ files_skipped st ≡ₚ all_files ∧
    Forall2 (λ file_path block,
               ∃ tokens, read_file_content E file_path 1000000
                           (Some include_line_numbers) = Ok (block, tokens))
      accepted_files blocks.
Proof.
  intros H Hexp A. unfold read_files_state in H. fold A in H.
  pose proof (add_direct_code_shape E code A) as Hcode. simpl in Hcode.
  pose proof (add_direct_code_content code A) as Hcp.
  set (st1 := add_direct_code E code _) in *.
  destruct Hcode as (Ht1 & Ha1 & Hb1 & Hs1 & Hr1).
  destruct (add_files E file_paths include_line_numbers st1) as [st2|e] eqn:Hadd;
    [|done].
  simpl in H. injection H as <-.
  destruct (add_skip_note_fields st2) as (Hsk & Htot & Hrd & Hnote).
  rewrite Hsk, Hnote. clear Hsk Htot Hrd Hnote.
  pose proof (add_files_cases E file_paths include_line_numbers st1) as Hcases.
  unfold notes_of. rewrite Hexp in *.
  destruct file_paths as [|p ps].
  { rewrite Hcases in Hadd. injection Hadd as <-.
    assert (all_files = []) as -> by (by injection Hexp as <-).
    exists [], []. rewrite Hs1, Hcp. simpl.
    split_and!; by try constructor. }
  destruct all_files as [|f fs]; rewrite Hcases in Hadd.
  { injection Hadd as <-. exists [], []. simpl. rewrite Hs1, Hcp, Hexp. simpl.
    rewrite app_nil_r. split_and!; by try constructor. }
  apply read_loop_scan_1 in Hadd.
  destruct (scan_accepted E _ _ _ _ Hadd) as (acc & Hc & Ht & Hb & _).
  destruct (scan_partition _ _ _ _ Hadd)
    as (accf & sk & bl & Hc' & Hs & Hsub & Hsubk & Hperm & Hf).
  assert (acc = bl) as -> by (rewrite Hc in Hc'; by apply app_inv_head in Hc').
  rewrite Hs1 in Hs. simpl in Hs. rewrite Hs, Hc', Hcp.
  exists accf, bl. rewrite <- !app_assoc, Hexp. simpl. split_and!; try done.
  intros Hne. specialize (Hb Hne). rewrite Ht, Ha1, Ht1, Hcp in Hb. lia.
Qed.

End layout.

(** X16.  In the result of [read_files] the inline code comes first, then
    the blocks of the accepted files in the order of the expanded list, then
    the notes; every expanded file is either accepted or named in the list
    of skipped files, and none is in both or lost. *)
Theorem read_files_keeps_order (E : Env) (file_paths : list string)
    (code : option string) (max_tokens : option Z) (reserve_tokens : Z)
    (include_line_numbers : bool) (st : assembly) (all_files : list string) :
  read_files_state E file_paths code max_tokens reserve_tokens
    include_line_numbers = Ok st →
  expand_paths E file_paths None = Ok all_files →
  ∃ accepted_files blocks,
    content_parts st
    = code_part_of E code
        (default (DEFAULT_CONTEXT_WINDOW E) max_tokens - reserve_tokens)
      ++ blocks ++ notes_of E file_paths (files_skipped st) ∧
    accepted_files `sublist_of` all_files ∧
    files_skipped st `sublist_of` all_files ∧
    accepted_files ++ files_skipped st ≡ₚ all_files ∧
    Forall2 (λ file_path block,
               ∃ tokens, read_file_content E file_path 1000000
                           (Some include_line_numbers) = Ok (block, tokens))
      accepted_files blocks.
Proof.
  intros Hrun Hexp.
  destruct (read_files_state_layout E _ _ _ _ _ _ _ Hrun Hexp)
    as (accf & bl & Hc & _ & Ha & Hs & Hp & Hf).
  by exists accf, bl.
Qed.

Lemma read_files_keeps_order_witness :
  ∃ accepted_files,
    accepted_files ++ ["/proj/b.py"] ≡ₚ ["/proj/a.py"; "/proj/b.py"; "/proj/c.py"].
Proof.
  destruct (read_files_keeps_order Demo.direct
              ["/proj/c.py"; "/proj/b.py"; "/proj/a.py"] None (Some 60) 0 false
              (mkAssembly
                 [file_block "/proj/a.py"
                    ("import os" +:+ LF +:+ "x = 1" +:+ LF +:+ "print(x)");
                  file_block "/proj/c.py" "c = 3";
                  skip_note ["/proj/b.py"]]
                 37 60 ["/proj/b.py"] ["/proj/a.py"; "/proj/b.py"; "/proj/c.py"])
              ["/proj/a.py"; "/proj/b.py"; "/proj/c.py"]
              ltac:(vm_compute; reflexivity) ltac:(vm_compute; reflexivity))
    as (accf & _ & _ & _ & _ & Hp & _).
  by exists accf.
Defined.

(** X17.  Accepted inline code is charged twice against the files: its
    estimate is added to the tokens used and taken off the tokens available,
    so the file blocks that are accepted together estimate to at most
    [max_tokens - reserve_tokens] less twice the estimate of the code. *)
Theorem read_files_charges_code_twice (E : Env) (file_paths : list string)
    (code : option string) (max_tokens : option Z) (reserve_tokens : Z)
    (include_line_numbers : bool) (st : assembly) (all_files : list string) :
  read_files_state E file_paths code max_tokens reserve_tokens
    include_line_numbers = Ok st →
  expand_paths E file_paths None = Ok all_files →
  let available := default (DEFAULT_CONTEXT_WINDOW E) max_tokens - reserve_tokens in
  ∃ blocks,
    content_parts st
    = code_part_of E code available ++ blocks
      ++ notes_of E file_paths (files_skipped st) ∧
    (blocks ≠ [] →
     sum_tokens E blocks
     ≤ available - 2 * sum_tokens E (code_part_of E code available)).
Proof.
  intros Hrun Hexp available.
  destruct (read_files_state_layout E _ _ _ _ _ _ _ Hrun Hexp)
    as (accf & bl & Hc & Hb & _).
  by exists bl.
Qed.

(** With 60 tokens and inline code of 14, [a.py] (21 tokens) is accepted and
    [c.py] (16 tokens) is not, although 14 + 21 + 16 is less than 60. *)
Lemma read_files_charges_code_twice_witness :
  ∃ blocks,
    blocks = [file_block "/proj/a.py"
                ("import os" +:+ LF +:+ "x = 1" +:+ LF +:+ "print(x)")] ∧
    sum_tokens Demo.direct blocks ≤ 60 - 2 * 14.
Proof.
  destruct (read_files_charges_code_twice Demo.direct ["/proj/a.py"; "/proj/c.py"]
              (Some "x = 0") (Some 60) 0 false
              (mkAssembly
                 [direct_code_block "x = 0";
                  file_block "/proj/a.py"
                    ("import os" +:+ LF +:+ "x = 1" +:+ LF +:+ "print(x)");
                  skip_note ["/proj/c.py"]]
                 35 46 ["/proj/c.py"] ["/proj/a.py"; "/proj/c.py"])
              ["/proj/a.py"; "/proj/c.py"]
              ltac:(vm_compute; reflexivity) ltac:(vm_compute; reflexivity))
    as (bl & Hc & Hb).
  replace (code_part_of _ _ _) with [direct_code_block "x = 0"] in Hc, Hb
    by (vm_compute; reflexivity).
  replace (notes_of _ _ _) with [skip_note ["/proj/c.py"]] in Hc
    by (vm_compute; reflexivity).
  simpl in Hc. injection Hc as Hc.
  apply (app_inj_tail [_] bl) in Hc as [<- _].
  exists [file_block "/proj/a.py"
            ("import os" +:+ LF +:+ "x = 1" +:+ LF +:+ "print(x)")].
  split; [done|]. 
  replace (sum_tokens _ [direct_code_block _]) with 14 in Hb
    by (vm_compute; reflexivity).
  apply Hb. done.
Defined.

(** X18.  Without paths the result is the inline code block when code is
    given and its estimate is within [max_tokens - reserve_tokens], and the
    empty string otherwise: code that does not fit is dropped without a
    note. *)
Theorem read_files_without_paths (E : Env) (code : option string)
    (max_tokens : option Z) (reserve_tokens : Z) (include_line_numbers : bool) :
  read_files E [] code max_tokens reserve_tokens include_line_numbers
  = Ok (match truthy code with
        | Some c =>
            if estimate_tokens E (direct_code_block c)
               <=? default (DEFAULT_CONTEXT_WINDOW E) max_tokens - reserve_tokens
            then direct_code_block c else ""
        | None => ""
        end).
Proof.
  unfold read_files, read_files_state, add_direct_code.
  destruct (truthy code) as [c|]; simpl; [|done].
  by destruct (_ <=? _).
Qed.

(** ** detect_file_type *)

(** X19.  [detect_file_type] answers "text", "image", "binary" or, beyond
    what its docstring lists, "unknown".  The answer "unknown" is given only
    for a suffix that is in none of the three tables, when opening or
    reading the file raises [FileNotFoundError] or [PermissionError].  Any
    other exception of [open] or [read], such as the [OSError] for a
    directory or the [ValueError] for a NUL in the path, is raised to the
    caller, and nothing else is. *)
Theorem detect_file_type_results (T : FileTypes) (lower : string → string)
    (read_head : Path → Z → result string) (decodes_utf8 : string → bool)
    (file_path : string) :
  let path := PurePath.of_str file_path in
  let extension := lower (PurePath.suffix path) in
  (∀ kind,
     detect_file_type T lower read_head decodes_utf8 file_path = Ok kind →
     kind ∈ ["text"; "image"; "binary"; "unknown"] ∧
     (kind = "unknown" →
        (extension ∉ TEXT_EXTENSIONS T) ∧ (extension ∉ IMAGE_EXTENSIONS T) ∧
        (extension ∉ BINARY_EXTENSIONS T) ∧
        ∃ e, read_head path 1024 = Raise e ∧
             is_FileNotFoundError_or_PermissionError e = true)) ∧
  (∀ e, detect_file_type T lower read_head decodes_utf8 file_path = Raise e ↔
        (extension ∉ TEXT_EXTENSIONS T) ∧ (extension ∉ IMAGE_EXTENSIONS T) ∧
        (extension ∉ BINARY_EXTENSIONS T) ∧
        read_head path 1024 = Raise e ∧
        is_FileNotFoundError_or_PermissionError e = false).
Proof.
  intros path extension. unfold detect_file_type. fold path. fold extension.
  destruct (bool_decide_reflect (extension ∈ TEXT_EXTENSIONS T)) as [Hin|Ht].
  { split; [intros kind [= <-]|by intros e; split; [|intros [? _]]].
    split; [|done]. by repeat constructor. }
  destruct (bool_decide_reflect (extension ∈ IMAGE_EXTENSIONS T)) as [Hin|Hi].
  { split; [intros kind [= <-]|by intros e; split; [|intros (_ & ? & _)]].
    split; [|done]. by repeat constructor. }
  destruct (bool_decide_reflect (extension ∈ BINARY_EXTENSIONS T)) as [Hin|Hb].
  { split; [intros kind [= <-]|by intros e; split; [|intros (_ & _ & ? & _)]].
    split; [|done]. by repeat constructor. }
  destruct (read_head path 1024) as [chunk|e'] eqn:Hread; simpl.
  - split; [|intros e; split; [by destruct (decodes_utf8 chunk)
                               |by intros (_ & _ & _ & ? & _)]].
    intros kind Hk. destruct (decodes_utf8 chunk); injection Hk as <-.
    + split; [by repeat constructor|done].
    + split; [by repeat constructor|done].
  - destruct (is_FileNotFoundError_or_PermissionError e') eqn:He.
    + split; [intros kind [= <-]|].
      * split; [by repeat constructor|]. intros _. split_and!; try done.
        by exists e'.
      * intros e. split; [done|]. intros (_ & _ & _ & [= ->] & ?). congruence.
    + split; [done|]. intros e. split.
      * intros [= <-]. by split_and!.
      * by intros (_ & _ & _ & [= ->] & _).
Qed.

(** X20.  For a suffix that is in one of the tables, whatever its case,
    [detect_file_type] answers from the tables alone, text before image
    before binary: the file is not opened, so the answer is the same for a
    file that is missing, unreadable or of other content. *)
Theorem detect_file_type_known_extension (T : FileTypes) (lower : string → string)
    (read_head read_head' : Path → Z → result string)
    (decodes_utf8 decodes_utf8' : string → bool) (file_path : string) :
  let extension := lower (PurePath.suffix (PurePath.of_str file_path)) in
  extension ∈ TEXT_EXTENSIONS T ∪ IMAGE_EXTENSIONS T ∪ BINARY_EXTENSIONS T →
  detect_file_type T lower read_head decodes_utf8 file_path
  = detect_file_type T lower read_head' decodes_utf8' file_path ∧
  detect_file_type T lower read_head decodes_utf8 file_path
  = Ok (if bool_decide (extension ∈ TEXT_EXTENSIONS T) then "text"
        else if bool_decide (extension ∈ IMAGE_EXTENSIONS T) then "image"
        else "binary").
Proof.
  intros extension Hin. unfold detect_file_type. fold extension.
  destruct (bool_decide_reflect (extension ∈ TEXT_EXTENSIONS T)) as [|Ht]; [done|].
  destruct (bool_decide_reflect (extension ∈ IMAGE_EXTENSIONS T)) as [|Hi]; [done|].
  destruct (bool_decide_reflect (extension ∈ BINARY_EXTENSIONS T)) as [|Hb]; [done|].
  apply elem_of_union in Hin as [Hin|Hin]; [|done].
  by apply elem_of_union in Hin as [Hin|Hin].
Qed.

(** [photo.PNG] is an image although the file does not exist. *)
Lemma detect_file_type_known_extension_witness :
  detect_file_type (mkFileTypes {[".py"; ".md"]} {[".png"]} {[".exe"]}) Str.lower_ascii
    (λ _ _, Raise (FileNotFoundError "No such file or directory")) (λ _, true)
    "/proj/photo.PNG"
  = Ok "image".
Proof.
  exact (proj2 (detect_file_type_known_extension
                  (mkFileTypes {[".py"; ".md"]} {[".png"]} {[".exe"]}) Str.lower_ascii
                  (λ _ _, Raise (FileNotFoundError "No such file or directory"))
                  (λ _ _, Raise (FileNotFoundError "No such file or directory"))
                  (λ _, true) (λ _, true) "/proj/photo.PNG"
                  ltac:(apply (bool_decide_unpack _); vm_compute; exact I))).
Defined.

(** A path with a NUL in it: [open] raises [ValueError], which no clause
    of [detect_file_type] names. *)
Example detect_file_type_raises_on_nul :
  detect_file_type (mkFileTypes {[".py"; ".md"]} {[".png"]} {[".exe"]}) Str.lower_ascii
    (λ p _, if existsb PosixFS.has_nul (parts p)
            then Raise (ValueError "embedded null byte")
            else Raise (FileNotFoundError "No such file or directory"))
    (λ _, true) (String "/" (String "a" (String "000" "b")))
  = Raise (ValueError "embedded null byte").
Proof. vm_compute. reflexivity. Qed.

(** ** _add_line_numbers: the lines of the result *)

Section numbered_lines.

Lemma has_char_app (c : ascii) (a b : string) :
  has_char c (a +:+ b) = has_char c a || has_char c b.
Proof.
  induction a as [|x a IH]; [done|].
  rewrite app_cons. simpl. by rewrite IH, orb_assoc.
Qed.

Lemma has_char_repeat (c d : ascii) (n : nat) :
  c ≠ d → has_char c (Str.repeat d n) = false.
Proof.
  intros Hcd. induction n as [|n IH]; [done|].
  simpl. by rewrite bool_decide_false.
Qed.

(** A decimal digit is no control character. *)
Lemma digit_printable (k : Z) :
  0 ≤ k < 10 → (48 ≤ N_of_ascii (Str.digit k))%N.
Proof.
  intros Hk.
  assert (k = 0 ∨ k = 1 ∨ k = 2 ∨ k = 3 ∨ k = 4 ∨ k = 5 ∨ k = 6 ∨ k = 7 ∨
          k = 8 ∨ k = 9) as Hcases by lia.
  repeat destruct Hcases as [->|Hcases]; try subst k; by vm_compute.
Qed.

Lemma has_char_digits_go (c : ascii) (fuel : nat) (n : Z) (acc : string) :
  (N_of_ascii c < 48)%N →
  has_char c (Str.digits_go fuel n acc) = has_char c acc.
Proof.
  intros Hc.
  assert (∀ m acc', has_char c (String (Str.digit (m mod 10)) acc')
                    = has_char c acc') as Hd.
  { intros m acc'. simpl. rewrite bool_decide_false; [done|]. intros ->.
    pose proof (digit_printable (m mod 10) ltac:(apply Z.mod_pos_bound; lia)).
    lia. }
  revert n acc. induction fuel as [|f IH]; intros n acc; simpl.
  - apply Hd.
  - destruct (n <? 10); [apply Hd|]. rewrite IH. apply Hd.
Qed.

Lemma has_char_of_Z (c : ascii) (n : Z) :
  (N_of_ascii c < 45)%N → has_char c (Str.of_Z n) = false.
Proof.
  intros Hc. unfold Str.of_Z, Str.digits. destruct (n <? 0).
  - simpl. rewrite has_char_digits_go by lia. simpl.
    rewrite bool_decide_false; [done|]. intros ->. vm_compute in Hc. done.
  - by rewrite has_char_digits_go by lia.
Qed.

(** The prefix of a numbered line has no line break in it. *)
Lemma number_line_no_break (c : ascii) (width : Z) (i : nat) (line : string) :
  (N_of_ascii c < 32)%N →
  has_char c (number_line width i line) = has_char c line.
Proof.
  intros Hc. unfold number_line, Str.format_d.
  rewrite !has_char_app, has_char_of_Z by lia.
  rewrite has_char_repeat by (intros ->; vm_compute in Hc; done).
  simpl. rewrite !bool_decide_false; [done|intros ->; vm_compute in Hc; done..].
Qed.

Lemma split_go_piece (c : ascii) (acc x s : string) :
  has_char c x = false →
  Str.split_go (String c "") 0 acc (x +:+ String c s)
  = (String.rev acc +:+ x) :: Str.split_go (String c "") 0 "" s.
Proof.
  revert acc. induction x as [|d x IH]; intros acc Hx.
  - rewrite app_nil_s, app_empty_r. simpl.
    destruct (ascii_dec c c) as [_|Hne]; [|done]. by rewrite startswith_nil.
  - simpl in Hx. apply orb_false_iff in Hx as [Hcd Hx].
    apply bool_decide_eq_false in Hcd. rewrite app_cons. simpl.
    destruct (ascii_dec c d) as [->|_]; [done|].
    rewrite IH by done. unfold String.rev. simpl.
    by rewrite !rev_app_app.
Qed.

(** Splitting undoes joining when no piece holds the separator. *)
Lemma split_join (c : ascii) (l : list string) :
  l ≠ [] → Forall (λ piece, has_char c piece = false) l →
  Str.split (String c "") (Str.join (String c "") l) = l.
Proof.
  intros Hne Hl. unfold Str.split.
  induction l as [|x [|y l] IH]; [done| |].
  - apply Forall_cons in Hl as [Hx _]. simpl.
    by rewrite (split_go_one_piece c "" "" x Hx).
  - apply Forall_cons in Hl as [Hx Hl].
    change (Str.join (String c "") (x :: y :: l))
      with (x +:+ String c "" +:+ Str.join (String c "") (y :: l)).
    rewrite app_cons, app_nil_s, split_go_piece by done.
    by rewrite IH.
Qed.

Lemma has_char_join (c : ascii) (sep : string) (l : list string) :
  has_char c sep = false →
  Forall (λ piece, has_char c piece = false) l →
  has_char c (Str.join sep l) = false.
Proof.
  intros Hsep Hl. induction l as [|x [|y l] IH]; [done| |].
  - by apply Forall_cons in Hl as [Hx _].
  - apply Forall_cons in Hl as [Hx Hl].
    change (Str.join sep (x :: y :: l))
      with (x +:+ sep +:+ Str.join sep (y :: l)).
    by rewrite !has_char_app, Hx, Hsep, IH.
Qed.

(** The pieces of a text without [c] are without [c]. *)
Lemma split_go_keeps_out (c d : ascii) (acc s : string) :
  has_char c acc = false → has_char c s = false →
  Forall (λ piece, has_char c piece = false)
    (Str.split_go (String d "") 0 acc s).
Proof.
  revert acc. induction s as [|x s IH]; intros acc Hacc Hs; simpl.
  - constructor; [|constructor]. unfold String.rev.
    by rewrite has_char_rev_app, Hacc.
  - simpl in Hs. apply orb_false_iff in Hs as [Hcx Hs].
    destruct (ascii_dec d x) as [->|Hne].
    + rewrite startswith_nil.
      constructor; [|by apply IH]. unfold String.rev.
      by rewrite has_char_rev_app, Hacc.
    + apply IH; [|done]. simpl. by rewrite Hcx, Hacc.
Qed.

End numbered_lines.

(** X21.  Numbering adds no line and merges none: split at the line feeds,
    the result of [_add_line_numbers] gives back the lines of the normalized
    content, one for one, each behind its number; like the normalized
    content it holds no carriage return. *)
Theorem add_line_numbers_keeps_lines (content : string) :
  let lines := Str.split LF (_normalize_line_endings content) in
  let width := Z.max 4 (Str.len (Str.of_Z (Z.of_nat (length lines)))) in
  Str.split LF (_add_line_numbers content) = imap (number_line width) lines ∧
  length (Str.split LF (_add_line_numbers content)) = length lines ∧
  has_char "013" (_add_line_numbers content) = false.
Proof.
  intros lines width.
  assert (_add_line_numbers content = Str.join LF (imap (number_line width) lines))
    as Heq.
  { unfold _add_line_numbers. fold lines. by rewrite (Z.max_comm (Str.len _) 4). }
  assert (Forall (λ line, has_char "010" line = false) lines) as Hlf
    by by apply split_go_no_sep.
  assert (Forall (λ line, has_char "013" line = false) lines) as Hcr.
  { apply split_go_keeps_out; [done|].
    unfold _normalize_line_endings, CR, LF. by apply replace_char_gone. }
  assert (∀ c, (N_of_ascii c < 32)%N →
               Forall (λ line, has_char c line = false) lines →
               Forall (λ line, has_char c line = false)
                 (imap (number_line width) lines)) as Hnum.
  { intros c Hc Hall. apply Forall_lookup. intros i x.
    rewrite list_lookup_imap. destruct (lines !! i) as [line|] eqn:Hi; [|done].
    intros [= <-]. rewrite number_line_no_break by done.
    by apply (Forall_lookup_1 _ _ _ _ Hall Hi). }
  assert (Str.split LF (_add_line_numbers content)
          = imap (number_line width) lines) as Hsplit.
  { rewrite Heq. unfold LF. apply split_join.
    - intros Hnil. apply (f_equal length) in Hnil.
      rewrite length_imap in Hnil. simpl in Hnil.
      by apply (split_go_nonempty LF 0 "" (_normalize_line_endings content)),
               nil_length_inv.
    - apply Hnum; [by vm_compute|done]. }
  split_and!; [done|by rewrite Hsplit, length_imap|].
  rewrite Heq. apply has_char_join; [done|]. apply Hnum; [by vm_compute|done].
Qed.
